(** * Source: loading a content-source plugin (src/lib/src/models/source.cpp)

    A shallow embedding of [Source::Source], [Source::addSite],
    [Source::removeSite] and [Source::getApi], together with the part of
    Qt the code relies on: [QString] and [QByteArray] values, the UTF-8
    and Latin-1 conversions between them, [QStringList] operations and the
    [QJSValue] accessors.

    Conventions.
    - A [QString] is its sequence of UTF-16 code units, a [QByteArray] its
      sequence of bytes; both are lists of [N].
    - A script value is a tree ([QJSValue]); script numbers are modelled by
      integers (page caps, lengths and line numbers are the only numbers
      the code reads).
    - The script engine is an external collaborator: its [evaluate] is a
      function supplied by [buildJsEngine], a section variable. *)

From stdpp Require Import base numbers list gmap sorting strings.
From Stdlib Require Import ZArith NArith DecimalString.

Local Open Scope N_scope.
Set Warnings "-clear-no-such-hyp".

(* ===================================================================== *)
(** ** Strings and byte arrays *)
(* ===================================================================== *)

Abbreviation QChar := N (only parsing).
Abbreviation QString := (list N) (only parsing).
Abbreviation QByteArray := (list N) (only parsing).
Abbreviation QStringList := (list (list N)) (only parsing).

(** A C string literal of the source, as the QString (or QByteArray) it
    converts to.  Every literal of source.cpp is plain ASCII. *)
Definition qstr (s : string) : QString :=
  List.map Ascii.N_of_ascii (String.list_ascii_of_string s).

Definition LF : N := 10.
Definition CR : N := 13.

(** Decimal rendering of an integer, as [QString::arg(int)] and the script
    runtime's number-to-string conversion produce it for integers. *)
Definition showZ (z : Z) : QString := qstr (NilZero.string_of_int (Z.to_int z)).

(** [QString::operator<]: code units compared left to right, a proper
    prefix first. *)
Fixpoint QString_ltb (a b : QString) : bool :=
  match a, b with
  | [], [] => false
  | [], _ :: _ => true
  | _ :: _, [] => false
  | x :: a', y :: b' =>
      if x <? y then true else if y <? x then false else QString_ltb a' b'
  end.

Definition QString_le (a b : QString) : Prop := QString_ltb b a = false.

#[global] Instance QString_le_dec : RelDecision QString_le.
Proof. intros a b. unfold QString_le. apply _. Defined.

(** [isEmpty] of QString, QByteArray and QList. *)
Definition isEmpty {A} (s : list A) : bool :=
  match s with [] => true | _ => false end.

(** [QStringList::join]. *)
Fixpoint join (sep : QString) (l : QStringList) : QString :=
  match l with
  | [] => []
  | [s] => s
  | s :: l' => s ++ sep ++ join sep l'
  end.

(** [QString::replace(c, "")] for a one-character pattern: every
    occurrence of the character is removed. *)
Definition removeChar (c : QChar) (s : QString) : QString :=
  List.filter (fun x => negb (x =? c)) s.

(** [QString::split(c)] for a one-character separator, keeping empty
    parts; the empty string splits into one empty part. *)
Fixpoint splitKeep (c : QChar) (s : QString) : QStringList :=
  match s with
  | [] => [[]]
  | x :: s' =>
      if x =? c then [] :: splitKeep c s'
      else match splitKeep c s' with
           | [] => [[x]]
           | p :: ps => (x :: p) :: ps
           end
  end.

(** [QString::split(c, Qt::SkipEmptyParts)]. *)
Definition split (c : QChar) (s : QString) : QStringList :=
  List.filter (fun p => negb (isEmpty p)) (splitKeep c s).

(** [QStringList::removeDuplicates]: the first occurrence of every string
    stays, in place; later ones are dropped. *)
Fixpoint removeDuplicates_from (seen : QStringList) (l : QStringList) : QStringList :=
  match l with
  | [] => []
  | s :: l' =>
      if bool_decide (s ∈ seen) then removeDuplicates_from seen l'
      else s :: removeDuplicates_from (s :: seen) l'
  end.

Definition removeDuplicates (l : QStringList) : QStringList :=
  removeDuplicates_from [] l.

(** [QStringList::sort()] (case sensitive): ascending for
    [QString::operator<].  The order is total and equal strings are
    identical, so the result does not depend on the sorting algorithm. *)
Definition sort (l : QStringList) : QStringList := merge_sort QString_le l.

(** [QStringList::removeAll]. *)
Definition removeAll (s : QString) (l : QStringList) : QStringList :=
  List.filter (fun x => negb (bool_decide (x = s))) l.

(** [QString::toLatin1]: a code unit above U+00FF becomes ['?']. *)
Definition toLatin1 (s : QString) : QByteArray :=
  List.map (fun c => if c <? 256 then c else 63) s.

(** *** UTF-8 decoding: the QByteArray to QString conversion

    [QString(const QByteArray &)] is [QString::fromUtf8].  A byte below
    0x80 is one code unit.  A well-formed multi-byte sequence gives one
    code unit, or a surrogate pair above U+FFFF.  A lead byte that does not
    start a well-formed sequence gives U+FFFD and decoding resumes at the
    next byte.  A byte-order mark at the very start is skipped. *)

Definition isContinuationByte (b : N) : bool := N.land b 192 =? 128.

Definition isSurrogate (uc : N) : bool := (55296 <=? uc) && (uc <=? 57343).

Definition ReplacementCharacter : QChar := 65533.

(** The code units for a decoded code point. *)
Definition appendUcs (uc : N) : QString :=
  if uc <? 65536 then [uc]
  else [55296 + N.shiftr (uc - 65536) 10; 56320 + N.land (uc - 65536) 1023].

(** One multi-byte sequence: [b] is the lead byte (at least 0x80), [src]
    the bytes after it.  The result is the code units written and the
    number of further bytes used, or [None] for a decoding error. *)
Definition fromUtf8_seq (b : N) (src : QByteArray) : option (QString * nat) :=
  if b <=? 193 then None
  else
    let '(charsNeeded, min_uc, uc0) :=
      if b <? 224 then (2%nat, 128, N.land b 31)
      else if b <? 240 then (3%nat, 2048, N.land b 15)
      else (4%nat, 65536, N.land b 7) in
    if 245 <=? b then None
    else
      let conts := take (charsNeeded - 1) src in
      if negb (forallb isContinuationByte conts) then None
      else if (length conts <? charsNeeded - 1)%nat then None
      else
        let uc := fold_left (fun acc c => N.lor (N.shiftl acc 6) (N.land c 63)) conts uc0 in
        if uc <? min_uc then None
        else if isSurrogate uc || (1114111 <? uc) then None
        else Some (appendUcs uc, (charsNeeded - 1)%nat).

Fixpoint fromUtf8_loop (fuel : nat) (src : QByteArray) : QString :=
  match fuel with
  | O => []
  | S fuel' =>
      match src with
      | [] => []
      | b :: rest =>
          if b <? 128 then b :: fromUtf8_loop fuel' rest
          else match fromUtf8_seq b rest with
               | Some (units, used) => units ++ fromUtf8_loop fuel' (drop used rest)
               | None => ReplacementCharacter :: fromUtf8_loop fuel' rest
               end
      end
  end.

Definition utf8bom : QByteArray := [239; 187; 191].

Definition fromUtf8 (ba : QByteArray) : QString :=
  let src := if bool_decide (take 3 ba = utf8bom) then drop 3 ba else ba in
  fromUtf8_loop (length src) src.

(** [QByteArray::trimmed]: the white space it strips is tab, line feed,
    vertical tab, form feed, carriage return and space. *)
Definition ascii_isspace (c : N) : bool := (c =? 32) || ((9 <=? c) && (c <=? 13)).

Fixpoint trimLeft (s : QByteArray) : QByteArray :=
  match s with
  | [] => []
  | c :: s' => if ascii_isspace c then trimLeft s' else s
  end.

Definition trimmed (s : QByteArray) : QByteArray :=
  rev (trimLeft (rev (trimLeft s))).

(* ===================================================================== *)
(** ** Script values: QJSValue *)
(* ===================================================================== *)

(** The values the script runtime hands back.  An object is the list of
    its own properties in the order the runtime enumerates them; an array
    is the list of its elements; [JSError] is an error object, the result
    of an evaluation that threw. *)
#[warnings="-register-all"]
Inductive QJSValue : Type :=
| JSUndefined
| JSNull
| JSBool (b : bool)
| JSNumber (n : Z)
| JSString (s : QString)
| JSArray (elems : list QJSValue)
| JSObject (props : list (QString * QJSValue))
| JSError (name message : QString) (lineNumber : Z).

(** [QJSValue::isUndefined], [isObject], [isError]. *)
Definition isUndefined (v : QJSValue) : bool :=
  match v with JSUndefined => true | _ => false end.

Definition isObject (v : QJSValue) : bool :=
  match v with JSArray _ | JSObject _ | JSError _ _ _ => true | _ => false end.

Definition isError (v : QJSValue) : bool :=
  match v with JSError _ _ _ => true | _ => false end.

(** [QJSValue::toString]: the ECMAScript ToString conversion.  The
    undefined value converts to the text "undefined"; an array to its
    elements joined by commas (undefined and null elements as empty
    text); a plain object to "[object Object]"; an error to its name and
    message. *)
Fixpoint toString (v : QJSValue) : QString :=
  match v with
  | JSUndefined => qstr "undefined"
  | JSNull => qstr "null"
  | JSBool true => qstr "true"
  | JSBool false => qstr "false"
  | JSNumber n => showZ n
  | JSString s => s
  | JSArray elems =>
      join (qstr ",")
        (List.map (fun e => match e with
                            | JSUndefined | JSNull => []
                            | _ => toString e
                            end) elems)
  | JSObject _ => qstr "[object Object]"
  | JSError name message _ =>
      if isEmpty name then message
      else if isEmpty message then name
      else name ++ qstr ": " ++ message
  end.

(** Text to number, for integer literals: white space around an optional
    sign and decimal digits; the empty text is zero; anything else is not
    a number. *)
Definition digitValue (c : QChar) : option Z :=
  if (48 <=? c) && (c <=? 57) then Some (Z.of_N (c - 48)) else None.

Fixpoint parseDigits (acc : Z) (s : QString) : option Z :=
  match s with
  | [] => Some acc
  | c :: s' =>
      match digitValue c with
      | Some d => parseDigits (acc * 10 + d)%Z s'
      | None => None
      end
  end.

Definition stringToNumber (s : QString) : option Z :=
  match trimmed s with
  | [] => Some 0%Z
  | 45 :: ds => if isEmpty ds then None else Z.opp <$> parseDigits 0%Z ds
  | 43 :: ds => if isEmpty ds then None else parseDigits 0%Z ds
  | ds => parseDigits 0%Z ds
  end.

(** ECMAScript ToNumber; [None] is NaN. *)
Definition toNumber (v : QJSValue) : option Z :=
  match v with
  | JSUndefined => None
  | JSNull => Some 0%Z
  | JSBool b => Some (if b then 1 else 0)%Z
  | JSNumber n => Some n
  | JSString s => stringToNumber s
  | JSArray _ | JSObject _ | JSError _ _ _ => stringToNumber (toString v)
  end.

(** [QJSValue::toInt] (ToInt32) and [QJSValue::toUInt] (ToUint32): NaN
    gives 0, other numbers wrap around modulo 2^32. *)
Definition toUInt (v : QJSValue) : Z :=
  match toNumber v with
  | None => 0
  | Some n => n mod 2 ^ 32
  end%Z.

Definition toInt (v : QJSValue) : Z :=
  match toNumber v with
  | None => 0
  | Some n => (n + 2 ^ 31) mod 2 ^ 32 - 2 ^ 31
  end%Z.

(** Association-list lookup: the first binding of [name]. *)
Fixpoint assoc {A} (name : QString) (props : list (QString * A)) : option A :=
  match props with
  | [] => None
  | (k, v) :: props' => if bool_decide (k = name) then Some v else assoc name props'
  end.

(** The index an array property name denotes, if any: its canonical
    decimal form, below the array's length. *)
Definition arrayIndex (name : QString) (len : nat) : option nat :=
  List.find (fun i => bool_decide (showZ (Z.of_nat i) = name)) (seq 0 len).

(** [QJSValue::property(const QString &)]: the undefined value when the
    receiver is not an object or has no such property. *)
Definition property (v : QJSValue) (name : QString) : QJSValue :=
  match v with
  | JSObject props => default JSUndefined (assoc name props)
  | JSArray elems =>
      if bool_decide (name = qstr "length") then JSNumber (Z.of_nat (length elems))
      else match arrayIndex name (length elems) with
           | Some i => nth i elems JSUndefined
           | None => JSUndefined
           end
  | JSError name' message lineNumber =>
      if bool_decide (name = qstr "name") then JSString name'
      else if bool_decide (name = qstr "message") then JSString message
      else if bool_decide (name = qstr "lineNumber") then JSNumber lineNumber
      else JSUndefined
  | _ => JSUndefined
  end.

(** [QJSValue::property(quint32)]. *)
Definition propertyAt (v : QJSValue) (i : nat) : QJSValue :=
  match v with
  | JSArray elems => nth i elems JSUndefined
  | JSObject _ => property v (showZ (Z.of_nat i))
  | _ => JSUndefined
  end.

(** What a [QJSValueIterator] visits: the own properties, name and value,
    in order.  For an array these are the elements under their indices,
    then [length]; a value that is not an object has none. *)
Definition ownProperties (v : QJSValue) : list (QString * QJSValue) :=
  match v with
  | JSObject props => props
  | JSArray elems =>
      imap (fun i e => (showZ (Z.of_nat i), e)) elems
        ++ [(qstr "length", JSNumber (Z.of_nat (length elems)))]
  | _ => []
  end.

(** Modelled from the spec: [jsToStringList] of js-helpers.h, which is not
    part of the sources at hand.  The spec reads [tokens] and the csrf
    [fields] as "an ordered list of strings": the elements of the list, in
    order, each as its text. *)
Definition jsToStringList (v : QJSValue) : QStringList :=
  List.map (fun i => toString (propertyAt v i)) (seq 0 (Z.to_nat (toUInt (property v (qstr "length"))))).

(* ===================================================================== *)
(** ** Authentication fields and strategies *)
(* ===================================================================== *)

(** [AuthField::FieldType] and the two [QCryptographicHash::Algorithm]
    values the code uses. *)
Inductive FieldType := Text | Password.
Inductive Algorithm := Md5 | Sha1.

(** The three field classes, each with the arguments of its constructor:
    [new AuthField(id, key, type, def)], [new AuthConstField(key, value)],
    [new AuthHashField(key, algo, salt)]. *)
Inductive AuthField :=
| AuthPlainField (id key : QString) (type : FieldType) (def : QString)
| AuthConstField (key value : QString)
| AuthHashField (key : QString) (algo : Algorithm) (salt : QString).

(** The five strategy classes, each with the arguments of its
    constructor. *)
Inductive Auth :=
| OAuth2Auth (type : QString) (auth : QJSValue)
| OAuth1Auth (type : QString) (auth : QJSValue)
| HttpBasicAuth (type : QString) (maxPage : Z) (passwordType : QString)
| HttpAuth (type url : QString) (fields : list AuthField)
           (cookie redirectUrl csrfUrl : QString) (csrfFields : QStringList)
| UrlAuth (type : QString) (fields : list AuthField) (maxPage : Z).

(** [!v.isUndefined() ? v.toString() : QString()]. *)
Definition stringOrEmpty (v : QJSValue) : QString :=
  if negb (isUndefined v) then toString v else [].

(** The body of the loop over [jsFields] (source.cpp, lines 128-144):
    one field description gives one field. *)
Definition buildField (field : QJSValue) : AuthField :=
  let fid := stringOrEmpty (property field (qstr "id")) in
  let key := stringOrEmpty (property field (qstr "key")) in
  let type := toString (property field (qstr "type")) in
  if bool_decide (type = qstr "hash") then
    let algoStr := toString (property field (qstr "hash")) in
    let algo := if bool_decide (algoStr = qstr "sha1") then Sha1 else Md5 in
    AuthHashField key algo (toString (property field (qstr "salt")))
  else if bool_decide (type = qstr "const") then
    let value := toString (property field (qstr "value")) in
    AuthConstField key value
  else
    let def := stringOrEmpty (property field (qstr "def")) in
    AuthPlainField fid key
      (if bool_decide (type = qstr "password") then Password else Text) def.

(** The loop itself (lines 124-145): [length] fields, read at the indices
    0, 1, ... and appended in that order. *)
Definition buildFields (jsFields : QJSValue) : list AuthField :=
  let length := toUInt (property jsFields (qstr "length")) in
  List.map (fun i => buildField (propertyAt jsFields i)) (seq 0 (Z.to_nat length)).

(** The body of the loop over the [auth] property (lines 107-161): the
    value [ret] holds when line 163 is reached. *)
Definition buildAuth (auth : QJSValue) : option Auth :=
  let type := toString (property auth (qstr "type")) in
  let check := property auth (qstr "check") in
  let checkType := if isObject check then toString (property check (qstr "type")) else [] in
  if bool_decide (type = qstr "oauth2") then
    Some (OAuth2Auth type auth)
  else if bool_decide (type = qstr "oauth1") then
    Some (OAuth1Auth type auth)
  else if bool_decide (type = qstr "http_basic") then
    let maxPage :=
      if bool_decide (checkType = qstr "max_page") then toInt (property check (qstr "value")) else 0%Z in
    let passwordType := toString (property auth (qstr "passwordType")) in
    Some (HttpBasicAuth type maxPage passwordType)
  else
    let fields := buildFields (property auth (qstr "fields")) in
    if bool_decide (type = qstr "get") || bool_decide (type = qstr "post") then
      let url := toString (property auth (qstr "url")) in
      let cookie :=
        if bool_decide (checkType = qstr "cookie") then toString (property check (qstr "key")) else [] in
      let redirectUrl :=
        if bool_decide (checkType = qstr "redirect") then toString (property check (qstr "url")) else [] in
      let csrf := property auth (qstr "csrf") in
      let csrfUrl := if isObject csrf then toString (property csrf (qstr "url")) else [] in
      let csrfFields := if isObject csrf then jsToStringList (property csrf (qstr "fields")) else [] in
      Some (HttpAuth type url fields cookie redirectUrl csrfUrl csrfFields)
    else
      let maxPage :=
        if bool_decide (checkType = qstr "max_page") then toInt (property check (qstr "value")) else 0%Z in
      Some (UrlAuth type fields maxPage).

(** Lines 163-165: a built strategy is stored under its scheme id with
    [QMap::insert], which replaces the value of a key already present; a
    null [ret] stores nothing. *)
Definition storeAuth (id : QString) (ret : option Auth) (m_auths : gmap (list N) Auth)
  : gmap (list N) Auth :=
  match ret with
  | Some a => <[id := a]> m_auths
  | None => m_auths
  end.

(** The whole loop over the [auth] property (lines 101-166), from a given
    map. *)
Definition readAuths (auths : QJSValue) (m_auths : gmap (list N) Auth) : gmap (list N) Auth :=
  fold_left (fun m '(id, auth) => storeAuth id (buildAuth auth) m) (ownProperties auths) m_auths.

(* ===================================================================== *)
(** ** Files of a plugin directory *)
(* ===================================================================== *)

(** Modelled from the spec: the plugin directory behind [ReadWritePath]
    (models/read-write-path.h is not part of the sources at hand).  The
    spec's layout is file-per-concern: the declarative source text, the
    flat endpoint list and the flat supported-endpoints list; a file that
    is absent or cannot be opened is [None].  [sites_txt_writable] tells
    whether the endpoint list can be written. *)
Record PluginDir := mkPluginDir {
  dir_path : QString;
  model_js : option QByteArray;
  sites_txt : option QByteArray;
  supported_txt : option QByteArray;
  sites_txt_writable : bool
}.

(** [m_dir.readPath(file)], as a path name. *)
Definition readPath (dir : PluginDir) (file : QString) : QString :=
  dir_path dir ++ qstr "/" ++ file.

(** [QFileInfo(path).fileName()]: what follows the last slash. *)
Definition fileName (path : QString) : QString :=
  List.last (splitKeep 47 path) [].

(** [QIODevice::readLine] until [atEnd]: the lines of a file, each with
    its line feed (the last one may lack it). *)
Fixpoint readLines (bs : QByteArray) : list QByteArray :=
  match bs with
  | [] => []
  | b :: bs' =>
      if b =? LF then [b] :: readLines bs'
      else match readLines bs' with
           | [] => [[b]]
           | l :: ls => (b :: l) :: ls
           end
  end.

(** A file opened with [QIODevice::Text]: [readLine] turns a final
    carriage return + line feed into a line feed, and [readAll] drops
    carriage returns.  A carriage return elsewhere in a line is read
    here as it is (what Qt does with it depends on the state of its read
    buffer); the lines are trimmed next, so only a carriage return in the
    middle of a line could show. *)
Definition textLine (line : QByteArray) : QByteArray :=
  match rev line with
  | x :: y :: front => if (x =? LF) && (y =? CR) then rev front ++ [LF] else line
  | _ => line
  end.

Definition readAllText (bs : QByteArray) : QByteArray := removeChar CR bs.

(** [QByteArray::replace(before, after)] for a non-empty [before]:
    occurrences are replaced from left to right, without overlap. *)
Fixpoint replace_loop (fuel : nat) (before after s : QByteArray) : QByteArray :=
  match fuel with
  | O => s
  | S fuel' =>
      match s with
      | [] => []
      | c :: s' =>
          if bool_decide (before `prefix_of` s)
          then after ++ replace_loop fuel' before after (drop (length before) s)
          else c :: replace_loop fuel' before after s'
      end
  end.

Definition replace (before after s : QByteArray) : QByteArray :=
  replace_loop (length s) before after s.

(** The loops of lines 177-185 and 194-200: every line is read, trimmed
    as a byte array and converted to a QString; an empty one is skipped,
    the others are appended in order. *)
Definition readTrimmedLines (bs : QByteArray) : QStringList :=
  fold_left
    (fun acc raw =>
       let line := fromUtf8 (trimmed (textLine raw)) in
       if isEmpty line then acc else acc ++ [line])
    (readLines bs) [].

(** Lines 215-223 and 235-243, common to [addSite] and [removeSite]: the
    file is read whole, carriage returns are removed and the text is
    split at line feeds, empty parts skipped. *)
Definition parseSites (raw : QByteArray) : QStringList :=
  split LF (removeChar CR (fromUtf8 raw)).

(** Modelled from the spec: [writeFile] of functions.h, which is not part
    of the sources at hand: the new content replaces the old one and the
    call reports success, or the file is left as it was and the call
    reports failure. *)
Definition writeFile (dir : PluginDir) (data : QByteArray) : bool * PluginDir :=
  if sites_txt_writable dir
  then (true, mkPluginDir (dir_path dir) (model_js dir) (Some data)
                          (supported_txt dir) (sites_txt_writable dir))
  else (false, dir).

(** Modelled from the spec: [Site] (models/site.h is not part of the
    sources at hand), an endpoint of a source, holding the URL it was
    created with. *)
Record Site := mkSite { url : QString }.

(** [Source::addSite] (lines 212-230). *)
Definition addSite (site : Site) (dir : PluginDir) : bool * PluginDir :=
  match sites_txt dir with
  | None => (false, dir)
  | Some rawSites =>
      let sites := parseSites rawSites in
      let sites := sites ++ [url site] in
      let sites := removeDuplicates sites in
      let sites := sort sites in
      writeFile dir (toLatin1 (join [CR; LF] sites))
  end.

(** [Source::removeSite] (lines 232-248). *)
Definition removeSite (site : Site) (dir : PluginDir) : bool * PluginDir :=
  match sites_txt dir with
  | None => (false, dir)
  | Some rawSites =>
      let sites := parseSites rawSites in
      let sites := removeAll (url site) sites in
      writeFile dir (toLatin1 (join [CR; LF] sites))
  end.

(** The endpoint list as the next [addSite] or [removeSite] will read it
    from the disk. *)
Definition sitesOnDisk (dir : PluginDir) : option QStringList :=
  parseSites <$> sites_txt dir.

(* ===================================================================== *)
(** ** The process: shared script runtime, lock, log *)
(* ===================================================================== *)

(** The script engine, a black box: source text and origin label in, a
    value out (an error value when the evaluation throws). *)
Record QJSEngine := mkEngine { evaluate : QString -> QString -> QJSValue }.

(** A [QMutex] object, by its identity. *)
Record QMutex := mkMutex { mutex_id : nat }.

#[global] Instance QMutex_eq_dec : EqDecision QMutex.
Proof. solve_decision. Defined.

Inductive LogLevel := Debug | Info | Warning | Error.

(** What a thread does with the shared runtime and the lock, in order. *)
Inductive RuntimeEvent :=
| EngineEvaluate (src fileName : QString)
| MutexLock (m : QMutex)
| MutexUnlock (m : QMutex).

(** The state of the process the code touches: the function-local statics
    of [jsEngine] and [jsEngineMutex] ([None] is [nullptr]), the number of
    mutexes created so far, the log, and the trace of runtime events. *)
Record Process := mkProcess {
  engineStatic : option QJSEngine;
  mutexStatic : option QMutex;
  mutexCount : nat;
  logged : list (LogLevel * QString);
  trace : list RuntimeEvent
}.

(** Code that runs in the process: a state-passing computation. *)
Definition Run (A : Type) : Type := Process -> A * Process.

#[global] Instance Run_ret : MRet Run := fun A a p => (a, p).
#[global] Instance Run_bind : MBind Run :=
  fun A B f m p => let '(a, p') := m p in f a p'.

(** [log(message, level)]. *)
Definition log (message : QString) (level : LogLevel) : Run unit :=
  fun p => (tt, mkProcess (engineStatic p) (mutexStatic p) (mutexCount p)
                          (logged p ++ [(level, message)]) (trace p)).

(** [engine->evaluate(src, fileName)], recorded in the trace. *)
Definition engineEvaluate (engine : QJSEngine) (src fileName : QString) : Run QJSValue :=
  fun p => (evaluate engine src fileName,
            mkProcess (engineStatic p) (mutexStatic p) (mutexCount p)
                      (logged p) (trace p ++ [EngineEvaluate src fileName])).

(** [Source::jsEngineMutex] (lines 44-53): the mutex is created on the
    first call and the same one is returned ever after. *)
Definition jsEngineMutex : Run QMutex :=
  fun p =>
    match mutexStatic p with
    | Some mutex => (mutex, p)
    | None =>
        let mutex := mkMutex (mutexCount p) in
        (mutex, mkProcess (engineStatic p) (Some mutex) (S (mutexCount p))
                          (logged p) (trace p))
    end.

(** A thread respects the lock when, along its trace, every evaluation
    happens between a lock and the matching unlock of [mutex]. *)
Fixpoint serialized_from (held : bool) (mutex : QMutex) (t : list RuntimeEvent) : bool :=
  match t with
  | [] => true
  | EngineEvaluate _ _ :: t' => held && serialized_from held mutex t'
  | MutexLock m :: t' =>
      if bool_decide (m = mutex) then serialized_from true mutex t'
      else serialized_from held mutex t'
  | MutexUnlock m :: t' =>
      if bool_decide (m = mutex) then serialized_from false mutex t'
      else serialized_from held mutex t'
  end.

Definition serialized (mutex : QMutex) (t : list RuntimeEvent) : bool :=
  serialized_from false mutex t.

(* ===================================================================== *)
(** ** Source *)
(* ===================================================================== *)

(** [TagNameFormat::CaseFormat] and [TagNameFormat]. *)
Inductive CaseFormat := Lower | UpperFirst | Upper | Caps.

Record TagNameFormat := mkTagNameFormat {
  caseFormat : CaseFormat;
  wordSeparator : QString
}.

(** Modelled from the spec: the default [TagNameFormat] (its constructor
    is in tags/tag-name-format.h, not part of the sources at hand):
    "default lower with empty separator when absent from the document". *)
Definition TagNameFormat_default : TagNameFormat := mkTagNameFormat Lower [].

(** The static table [caseAssoc] (lines 59-65). *)
Definition caseAssoc : list (QString * CaseFormat) :=
  [ (qstr "lower", Lower);
    (qstr "upper_first", UpperFirst);
    (qstr "upper", Upper);
    (qstr "caps", Caps) ].

(** A [JavascriptApi], by the arguments of its constructor. *)
Record Api := JavascriptApi {
  api_engine : QJSEngine;
  api_source : QJSValue;
  api_engineMutex : QMutex;
  api_key : QString
}.

(** [SourceUpdater], by the arguments of its constructor. *)
Record SourceUpdater := mkSourceUpdater {
  updater_source : QString;
  updater_dir : QString;
  updater_baseUrl : QString
}.

(** The members of a [Source]. *)
Record Source := mkSource {
  m_dir : QString;
  m_diskName : QString;
  m_name : QString;
  m_profile : nat;
  m_updater : SourceUpdater;
  m_jsSource : QJSValue;
  m_additionalTokens : QStringList;
  m_apis : list Api;
  m_tagNameFormat : TagNameFormat;
  m_auths : gmap (list N) Auth;
  m_sites : list Site;
  m_supportedSites : QStringList
}.

(** The members the evaluation of the document sets (lines 75-166). *)
Record Document := mkDocument {
  doc_jsSource : QJSValue;
  doc_name : QString;
  doc_additionalTokens : QStringList;
  doc_apis : list Api;
  doc_tagNameFormat : TagNameFormat;
  doc_auths : gmap (list N) Auth
}.

(** Their values before the body of the constructor runs: default
    constructed members. *)
Definition Document_default : Document :=
  mkDocument JSUndefined [] [] [] TagNameFormat_default ∅.

Section SourceConstruction.

(** [buildJsEngine] of js-helpers.h: the engine for a helper script. *)
Variable buildJsEngine : QString -> QJSEngine.

(** Whether the build defines [NIGHTLY] or [QT_DEBUG]. *)
Variable NIGHTLY_or_QT_DEBUG : bool.

(** [getUpdaterBaseUrl] (lines 25-32). *)
Definition getUpdaterBaseUrl : QString :=
  if NIGHTLY_or_QT_DEBUG
  then qstr "https://raw.githubusercontent.com/Bionus/imgbrd-grabber/develop/src/sites"
  else qstr "https://raw.githubusercontent.com/Bionus/imgbrd-grabber/master/src/sites".

(** [Source::jsEngine] (lines 34-43): the engine is built on the first
    call and the same one is returned ever after. *)
Definition jsEngine (dir : PluginDir) : Run QJSEngine :=
  fun p =>
    match engineStatic p with
    | Some engine => (engine, p)
    | None =>
        let engine := buildJsEngine (readPath dir (qstr "../helper.js")) in
        (engine, mkProcess (Some engine) (mutexStatic p) (mutexCount p)
                           (logged p) (trace p))
    end.

(** Lines 83-88: one [JavascriptApi] per own property of [apis], in
    enumeration order; each is given the process-wide mutex. *)
Fixpoint readApis (engine : QJSEngine) (jsSource : QJSValue)
    (entries : list (QString * QJSValue)) (m_apis : list Api) : Run (list Api) :=
  match entries with
  | [] => mret m_apis
  | (name, _) :: entries' =>
      mutex ← jsEngineMutex;
      readApis engine jsSource entries' (m_apis ++ [JavascriptApi engine jsSource mutex name])
  end.

(** Lines 79-166: the branch taken when the evaluation gave no error. *)
Definition readDocument (engine : QJSEngine) (jsSource : QJSValue) : Run Document :=
  let name := toString (property jsSource (qstr "name")) in
  let additionalTokens := jsToStringList (property jsSource (qstr "tokens")) in
  let apis := property jsSource (qstr "apis") in
  m_apis ← readApis engine jsSource (ownProperties apis) [];
  _ ← (if isEmpty m_apis
       then log (qstr "No valid source has been found in the model.js file from "
                   ++ name ++ qstr ".") Info
       else mret tt);
  let tagFormat := property jsSource (qstr "tagFormat") in
  let tagNameFormat :=
    if negb (isUndefined tagFormat) then
      let caseFormat :=
        default Lower (assoc (toString (property tagFormat (qstr "case"))) caseAssoc) in
      mkTagNameFormat caseFormat (toString (property tagFormat (qstr "wordSeparator")))
    else TagNameFormat_default in
  let auths := property jsSource (qstr "auth") in
  mret (mkDocument jsSource name additionalTokens m_apis tagNameFormat (readAuths auths ∅)).

(** Lines 68-172: the script model. *)
Definition readModel (m_diskName : QString) (dir : PluginDir) : Run Document :=
  let jsFileName := readPath dir (qstr "model.js") in
  match model_js dir with
  | Some content =>
      _ ← log (qstr "Using Javascript model for " ++ m_diskName) Debug;
      let src :=
        fromUtf8 (qstr "(function() { var window = {}; "
                    ++ replace (qstr "export var source = ") (qstr "return ")
                         (readAllText content)
                    ++ qstr " })()") in
      engine ← jsEngine dir;
      jsSource ← engineEvaluate engine src jsFileName;
      if isError jsSource then
        _ ← log (qstr "Uncaught exception at line "
                   ++ showZ (toInt (property jsSource (qstr "lineNumber")))
                   ++ qstr ": " ++ toString jsSource) Error;
        mret (mkDocument jsSource [] [] [] TagNameFormat_default ∅)
      else readDocument engine jsSource
  | None =>
      _ ← log (qstr "Javascript model not found for '" ++ m_diskName
                 ++ qstr "' in '" ++ jsFileName ++ qstr "'") Warning;
      mret Document_default
  end.

(** [Source::Source] (lines 55-202). *)
Definition Source_new (profile : nat) (dir : PluginDir) : Run Source :=
  let diskName := fileName (dir_path dir) in
  let updater := mkSourceUpdater diskName (dir_path dir) getUpdaterBaseUrl in
  doc ← readModel diskName dir;
  let sites :=
    match sites_txt dir with
    | Some bs => List.map mkSite (readTrimmedLines bs)
    | None => []
    end in
  _ ← (if isEmpty sites
       then log (qstr "No site for source " ++ doc_name doc) Debug
       else mret tt);
  let supportedSites :=
    match supported_txt dir with
    | Some bs => readTrimmedLines bs
    | None => []
    end in
  mret (mkSource (dir_path dir) diskName (doc_name doc) profile updater
          (doc_jsSource doc) (doc_additionalTokens doc) (doc_apis doc)
          (doc_tagNameFormat doc) (doc_auths doc) sites supportedSites).

End SourceConstruction.

Section GetApi.

(** [Api::getName] (models/api/api.h): the name an Api answers to. *)
Variable getName : Api -> QString.

(** [Source::getApi] (lines 261-269); [None] is [nullptr]. *)
Fixpoint getApi_loop (apis : list Api) (name : QString) : option Api :=
  match apis with
  | [] => None
  | api :: apis' =>
      if bool_decide (getName api = name) then Some api
      else getApi_loop apis' name
  end.

Definition getApi (this : Source) (name : QString) : option Api :=
  getApi_loop (m_apis this) name.

End GetApi.

(* ===================================================================== *)
(** ** Vocabulary of the properties *)
(* ===================================================================== *)

(** The type names that do not lead to the [UrlAuth] branch. *)
Definition otherTypes : list (list N) :=
  [qstr "oauth2"; qstr "oauth1"; qstr "http_basic"; qstr "get"; qstr "post"].

(** Plain ASCII text, and ASCII text that fits on one line. *)
Definition asciiText (s : list N) : Prop := Forall (fun c => c < 128) s.

Definition lineText (s : list N) : Prop :=
  Forall (fun c => c < 128 ∧ c ≠ LF ∧ c ≠ CR) s.

#[global] Instance asciiText_dec s : Decision (asciiText s).
Proof. unfold asciiText. apply _. Defined.

#[global] Instance lineText_dec s : Decision (lineText s).
Proof. unfold lineText. apply _. Defined.

(** In the words of the specification: every line is trimmed, and stored
    unless it is empty. *)
Definition storedLines (raw : QByteArray) : QStringList :=
  List.filter (fun line => negb (isEmpty line))
    (List.map (fun line => fromUtf8 (trimmed (textLine line))) (readLines raw)).



(** The type text a strategy was created with: the first argument of
    every constructor. *)
Definition auth_type (a : Auth) : list N :=
  match a with
  | OAuth2Auth type _ | OAuth1Auth type _ | HttpBasicAuth type _ _
  | HttpAuth type _ _ _ _ _ _ | UrlAuth type _ _ => type
  end.

(** The page cap of the strategies that have one. *)
Definition auth_maxPage (a : Auth) : option Z :=
  match a with
  | HttpBasicAuth _ maxPage _ | UrlAuth _ _ maxPage => Some maxPage
  | _ => None
  end.

(** The range of a C++ [int]. *)
Definition inIntRange (z : Z) : Prop := (- 2 ^ 31 <= z < 2 ^ 31)%Z.

(** The text handed to the engine for the content of model.js (line
    72). *)
Definition wrappedSource (content : list N) : list N :=
  fromUtf8 (qstr "(function() { var window = {}; "
              ++ replace (qstr "export var source = ") (qstr "return ")
                   (readAllText content)
              ++ qstr " })()").

(** The engine of the process once [jsEngine] has been called for
    [dir]. *)
Definition engineFor (buildJsEngine : list N -> QJSEngine) (dir : PluginDir)
    (p : Process) : QJSEngine :=
  default (buildJsEngine (readPath dir (qstr "../helper.js"))) (engineStatic p).

(** The mutex of the process once [jsEngineMutex] has been called. *)
Definition mutexFor (p : Process) : QMutex :=
  default (mkMutex (mutexCount p)) (mutexStatic p).



(** Inputs at which the further properties are instantiated. *)

(** A document with a name, two apis, a tag format and two schemes, and
    an engine that always gives it. *)
Definition exampleDocument : QJSValue :=
  JSObject
    [(qstr "name", JSString (qstr "Example"));
     (qstr "apis", JSObject [(qstr "json", JSObject []); (qstr "html", JSObject [])]);
     (qstr "tagFormat", JSObject [(qstr "case", JSString (qstr "upper_first"));
                                  (qstr "wordSeparator", JSString (qstr "_"))]);
     (qstr "auth",
      JSObject
        [(qstr "url", JSObject [(qstr "type", JSString (qstr "url"));
                                (qstr "check", JSObject [(qstr "type", JSString (qstr "max_page"));
                                                         (qstr "value", JSNumber 50)])]);
         (qstr "session",
          JSObject [(qstr "type", JSString (qstr "post"));
                    (qstr "url", JSString (qstr "/session"));
                    (qstr "fields", JSArray [JSObject [(qstr "id", JSString (qstr "pseudo"));
                                                       (qstr "key", JSString (qstr "name"))]]);
                    (qstr "check", JSObject [(qstr "type", JSString (qstr "cookie"));
                                             (qstr "key", JSString (qstr "user_id"))])])])].

Definition exampleEngine : QJSEngine := mkEngine (fun _ _ => exampleDocument).

Definition exampleDir : PluginDir :=
  mkPluginDir (qstr "sites/Example") (Some (qstr "export var source = {};"))
    (Some (qstr "c.example" ++ [LF] ++ qstr "a.example" ++ [CR; LF])) None true.

Definition emptyDir : PluginDir :=
  mkPluginDir (qstr "sites/Empty") None None None true.

Definition freshProcess : Process := mkProcess None None 0 [] [].

(** Closed goals and hypotheses about literals, settled by evaluation. *)
Ltac closed_false H :=
  exfalso; first
    [ discriminate H
    | apply (bool_decide_eq_true_2 _) in H; vm_compute in H; discriminate H ].

Ltac closed_neq := let H := fresh in intros H; closed_false H.

Ltac by_compute := apply (bool_decide_unpack _); vm_compute; exact I.

(** Unfolding of the state-passing combinators. *)
Ltac run_unfold :=
  unfold mbind, Run_bind, mret, Run_ret, log, engineEvaluate, jsEngine in *;
  cbn beta iota zeta in *.

(* ===================================================================== *)
(** ** Properties of the builders *)
(* ===================================================================== *)

Lemma property_array_length elems :
  property (JSArray elems) (qstr "length") = JSNumber (Z.of_nat (length elems)).
Proof. reflexivity. Qed.

Lemma toUInt_array_length elems :
  (Z.of_nat (length elems) < 2 ^ 32)%Z ->
  Z.to_nat (toUInt (property (JSArray elems) (qstr "length"))) = length elems.
Proof.
  intros Hlen. rewrite property_array_length. unfold toUInt, toNumber.
  rewrite Z.mod_small; [apply Nat2Z.id|lia].
Qed.

Lemma map_nth_seq {A B} (f : A -> B) (d : A) (l : list A) :
  List.map (fun i => f (nth i l d)) (seq 0 (length l)) = List.map f l.
Proof.
  induction l as [|x l IH]; [done|].
  cbn [length seq List.map nth]. f_equal.
  rewrite <- seq_shift, List.map_map. exact IH.
Qed.

(** The fields of an array of descriptions are the fields of its
    elements, in the order of the array. *)
Lemma buildFields_array elems :
  (Z.of_nat (length elems) < 2 ^ 32)%Z ->
  buildFields (JSArray elems) = List.map buildField elems.
Proof.
  intros Hlen. unfold buildFields. rewrite toUInt_array_length by done.
  cbn [propertyAt]. apply map_nth_seq.
Qed.

Lemma buildFields_undefined : buildFields JSUndefined = [].
Proof. reflexivity. Qed.

Lemma isUndefined_inv v : isUndefined v = true -> v = JSUndefined.
Proof. by destruct v. Qed.

(** A strategy is always built: [ret] is never null at line 163. *)
Lemma buildAuth_is_Some auth : is_Some (buildAuth auth).
Proof. unfold buildAuth. repeat case_match; eauto. Qed.

Lemma undefined_not_otherTypes : toString JSUndefined ∉ otherTypes.
Proof. apply (bool_decide_unpack _). by vm_compute. Qed.

(** C1. An authentication-scheme node whose [type] is none of "oauth2",
    "oauth1", "http_basic", "get", "post" (a node without [type]
    included) gives a [UrlAuth]; its fields are the ones built from the
    node's [fields]: for a list, the field of every element, in the order
    of the list, and none when [fields] is absent. *)
Theorem C1_url_auth_fields_in_document_order (auth : QJSValue) :
  let type := toString (property auth (qstr "type")) in
  let jsFields := property auth (qstr "fields") in
  isUndefined (property auth (qstr "type")) = true ∨ type ∉ otherTypes ->
  ∃ maxPage,
    buildAuth auth = Some (UrlAuth type (buildFields jsFields) maxPage)
    ∧ (∀ elems, jsFields = JSArray elems -> (Z.of_nat (length elems) < 2 ^ 32)%Z ->
         buildFields jsFields = List.map buildField elems)
    ∧ (isUndefined jsFields = true -> buildFields jsFields = []).
Proof.
  intros type jsFields Htype.
  assert (Hnot : type ∉ otherTypes).
  { destruct Htype as [Hu|Hn]; [|done].
    unfold type. rewrite (isUndefined_inv _ Hu). apply undefined_not_otherTypes. }
  unfold otherTypes in Hnot.
  rewrite !not_elem_of_cons in Hnot.
  destruct Hnot as (H1 & H2 & H3 & H4 & H5 & _).
  eexists. split; [|split].
  - unfold buildAuth. fold type. fold jsFields.
    rewrite (bool_decide_eq_false_2 _ H1), (bool_decide_eq_false_2 _ H2),
      (bool_decide_eq_false_2 _ H3), (bool_decide_eq_false_2 _ H4),
      (bool_decide_eq_false_2 _ H5).
    cbn [orb]. reflexivity.
  - intros elems -> Hlen. by apply buildFields_array.
  - intros Hu. by rewrite (isUndefined_inv _ Hu).
Qed.

(** C2. A field description whose [type] is "hash" gives an
    [AuthHashField]; its algorithm is SHA-1 exactly when the text of the
    [hash] property is "sha1", compared as is, and MD5 in every other
    case, the one of an absent [hash] included. *)
Theorem C2_hash_field_algorithm (field : QJSValue) :
  toString (property field (qstr "type")) = qstr "hash" ->
  ∃ key algo salt,
    buildField field = AuthHashField key algo salt
    ∧ (algo = Sha1 ↔ toString (property field (qstr "hash")) = qstr "sha1")
    ∧ (algo = Md5 ↔ toString (property field (qstr "hash")) ≠ qstr "sha1")
    ∧ (∀ s, property field (qstr "hash") = JSString s -> (algo = Sha1 ↔ s = qstr "sha1"))
    ∧ (isUndefined (property field (qstr "hash")) = true -> algo = Md5).
Proof.
  intros Htype. unfold buildField. rewrite Htype.
  rewrite (bool_decide_eq_true_2 (qstr "hash" = qstr "hash") eq_refl).
  do 3 eexists. split; [reflexivity|].
  destruct (decide (toString (property field (qstr "hash")) = qstr "sha1")) as [Heq|Hne].
  - rewrite (bool_decide_eq_true_2 _ Heq).
    split; [done|]. split; [split; [discriminate|done]|]. split.
    + intros s' Hs. rewrite Hs in Heq. cbn [toString] in Heq. done.
    + intros Hu. rewrite (isUndefined_inv _ Hu) in Heq. by vm_compute in Heq.
  - rewrite (bool_decide_eq_false_2 _ Hne).
    split; [split; [discriminate|done]|]. split; [done|]. split.
    + intros s' Hs. rewrite Hs in Hne. cbn [toString] in Hne.
      split; [discriminate|done].
    + done.
Qed.

(** The comparison with "sha1" is case sensitive. *)
Example hash_field_uppercase_name_is_md5 :
  buildField (JSObject [(qstr "key", JSString (qstr "password_hash"));
                        (qstr "type", JSString (qstr "hash"));
                        (qstr "hash", JSString (qstr "SHA1"));
                        (qstr "salt", JSString (qstr "--%value%--"))])
  = AuthHashField (qstr "password_hash") Md5 (qstr "--%value%--").
Proof. vm_compute. reflexivity. Qed.

(** A field description of type "const" gives an [AuthConstField] whose
    value is the text of the [value] property, whatever that property
    is. *)
Lemma buildField_const field :
  toString (property field (qstr "type")) = qstr "const" ->
  buildField field
  = AuthConstField (stringOrEmpty (property field (qstr "key")))
      (toString (property field (qstr "value"))).
Proof.
  intros Htype. unfold buildField. rewrite Htype.
  rewrite (bool_decide_eq_false_2 (qstr "const" = qstr "hash")) by (by vm_compute).
  by rewrite (bool_decide_eq_true_2 (qstr "const" = qstr "const") eq_refl).
Qed.

Lemma buildField_const_without_value field :
  toString (property field (qstr "type")) = qstr "const" ->
  isUndefined (property field (qstr "value")) = true ->
  ∃ key, buildField field = AuthConstField key (qstr "undefined").
Proof.
  intros Htype Hvalue. rewrite (buildField_const _ Htype), (isUndefined_inv _ Hvalue).
  by eexists.
Qed.

(** C3. A field description of type "const" without [value]: the
    constant of the resulting [AuthConstField] is the text "undefined",
    not the empty string.  Unlike [id], [key] and [def], the property is
    converted without a test for the undefined value. *)
Theorem C3_const_without_value_is_undefined_text :
  let field := JSObject [(qstr "type", JSString (qstr "const"));
                         (qstr "key", JSString (qstr "api_key"))] in
  isUndefined (property field (qstr "value")) = true
  ∧ buildField field = AuthConstField (qstr "api_key") (qstr "undefined")
  ∧ buildField field ≠ AuthConstField (qstr "api_key") [].
Proof. split; [|split]; [by vm_compute..|]. by vm_compute. Qed.

(** The loop of [readAuths] from a map [m]: a scheme id keeps what the
    last entry under that id stored. *)
Lemma readAuths_entries_lookup (entries : list (list N * QJSValue))
    (m : gmap (list N) Auth) (id : list N) :
  fold_left (fun m '(id, auth) => storeAuth id (buildAuth auth) m) entries m !! id
  = match assoc id (rev entries) with
    | Some node => buildAuth node
    | None => m !! id
    end.
Proof.
  revert m. induction entries as [|[k node] entries IH] using rev_ind; intros m; [done|].
  rewrite fold_left_app, rev_app_distr. cbn [fold_left rev app assoc].
  destruct (buildAuth_is_Some node) as [a Ha]. rewrite Ha. cbn [storeAuth].
  case_bool_decide as Hk.
  - subst k. by rewrite lookup_insert_eq.
  - rewrite lookup_insert_ne by done. apply IH.
Qed.




(* ===================================================================== *)
(** ** Properties of the constructor *)
(* ===================================================================== *)

Lemma readDocument_jsSource engine jsSource p :
  doc_jsSource (readDocument engine jsSource p).1 = jsSource.
Proof.
  unfold readDocument. run_unfold.
  destruct (readApis _ _ _ _ p) as [apis p1]. by case_match.
Qed.

(** What the script model leaves when the evaluation gives an error. *)
Lemma readModel_error buildJsEngine diskName dir p :
  let doc := (readModel buildJsEngine diskName dir p).1 in
  let p' := (readModel buildJsEngine diskName dir p).2 in
  isError (doc_jsSource doc) = true ->
  doc_name doc = [] ∧ doc_apis doc = [] ∧ doc_auths doc = ∅
  ∧ doc_additionalTokens doc = []
  ∧ logged p' =
      logged p
        ++ [(Debug, qstr "Using Javascript model for " ++ diskName);
            (Error, qstr "Uncaught exception at line "
                      ++ showZ (toInt (property (doc_jsSource doc) (qstr "lineNumber")))
                      ++ qstr ": " ++ toString (doc_jsSource doc))].
Proof.
  unfold readModel. destruct (model_js dir) as [content|]; run_unfold.
  - destruct (engineStatic p) as [engine|] eqn:He;
      cbn [engineStatic mutexStatic mutexCount logged trace fst snd].
    all: match goal with
         | |- context [isError (evaluate ?e ?s ?f)] =>
             destruct (isError (evaluate e s f)) eqn:Herr
         end;
      cbn [engineStatic mutexStatic mutexCount logged trace fst snd
           doc_jsSource doc_name doc_apis doc_auths doc_additionalTokens].
    all: try (intros _; rewrite <- app_assoc; by repeat split).
    all: rewrite readDocument_jsSource; congruence.
  - cbn. discriminate.
Qed.

(** The constructor, in terms of what the script model gives. *)
Lemma Source_new_unfold buildJsEngine nightly profile dir p :
  Source_new buildJsEngine nightly profile dir p =
  let diskName := fileName (dir_path dir) in
  let doc := (readModel buildJsEngine diskName dir p).1 in
  let p1 := (readModel buildJsEngine diskName dir p).2 in
  let sites := match sites_txt dir with
               | Some bs => List.map mkSite (readTrimmedLines bs)
               | None => []
               end in
  let supportedSites := match supported_txt dir with
                        | Some bs => readTrimmedLines bs
                        | None => []
                        end in
  (mkSource (dir_path dir) diskName (doc_name doc) profile
     (mkSourceUpdater diskName (dir_path dir) (getUpdaterBaseUrl nightly))
     (doc_jsSource doc) (doc_additionalTokens doc) (doc_apis doc)
     (doc_tagNameFormat doc) (doc_auths doc) sites supportedSites,
   if isEmpty sites
   then (log (qstr "No site for source " ++ doc_name doc) Debug p1).2
   else p1).
Proof.
  unfold Source_new. run_unfold.
  destruct (readModel _ _ _ p) as [doc p1]. cbn [fst snd].
  by destruct (isEmpty _).
Qed.


(** The line number of an error value, as the constructor reads it. *)
Lemma error_lineNumber name message line :
  (- 2 ^ 31 <= line < 2 ^ 31)%Z ->
  toInt (property (JSError name message line) (qstr "lineNumber")) = line.
Proof.
  intros Hline.
  change (property (JSError name message line) (qstr "lineNumber")) with (JSNumber line).
  unfold toInt, toNumber. rewrite Z.mod_small; lia.
Qed.

(** C5. When the evaluation of the document gives an error, the Source
    is constructed all the same: its name is empty, it has no apis and no
    auths, and the log holds an error entry with the line number and the
    text of the error. *)
Theorem C5_evaluation_error_gives_empty_source
    (buildJsEngine : list N -> QJSEngine) (nightly : bool) (profile : nat)
    (dir : PluginDir) (p : Process) :
  let s := (Source_new buildJsEngine nightly profile dir p).1 in
  let p' := (Source_new buildJsEngine nightly profile dir p).2 in
  isError (m_jsSource s) = true ->
  m_name s = [] ∧ m_apis s = [] ∧ m_auths s = ∅
  ∧ (Error, qstr "Uncaught exception at line "
              ++ showZ (toInt (property (m_jsSource s) (qstr "lineNumber")))
              ++ qstr ": " ++ toString (m_jsSource s)) ∈ logged p'
  ∧ (∀ name message line,
       m_jsSource s = JSError name message line ->
       (- 2 ^ 31 <= line < 2 ^ 31)%Z ->
       toInt (property (m_jsSource s) (qstr "lineNumber")) = line).
Proof.
  rewrite Source_new_unfold. cbn zeta. cbn [fst snd m_jsSource m_name m_apis m_auths].
  intros Herr.
  destruct (readModel_error buildJsEngine _ dir p Herr) as (Hn & Ha & Hm & _ & Hlog).
  repeat split; try done.
  - assert (Hin : ∀ e, e ∈ logged (readModel buildJsEngine (fileName (dir_path dir)) dir p).2 ->
        e ∈ logged (if isEmpty match sites_txt dir with
                                | Some bs => List.map mkSite (readTrimmedLines bs)
                                | None => []
                                end
                    then (log (qstr "No site for source "
                                 ++ doc_name (readModel buildJsEngine
                                                (fileName (dir_path dir)) dir p).1)
                            Debug (readModel buildJsEngine (fileName (dir_path dir)) dir p).2).2
                    else (readModel buildJsEngine (fileName (dir_path dir)) dir p).2)).
    { intros e He. destruct (isEmpty _); [|done].
      cbn [log snd logged]. apply elem_of_app. by left. }
    apply Hin. rewrite Hlog. rewrite !elem_of_app, !elem_of_cons. right. right. by left.
  - intros name message line -> Hline. by apply error_lineNumber.
Qed.

(** C10. [getApi] returns the first Api of the list, in construction
    order, whose name is the argument, and null when no Api of the list
    has that name. *)
Theorem C10_getApi_first_match_or_null (getName : Api -> list N)
    (this : Source) (name : list N) :
  (∀ api, getApi getName this name = Some api ↔
     ∃ before after,
       m_apis this = before ++ api :: after
       ∧ getName api = name
       ∧ Forall (fun a => getName a ≠ name) before)
  ∧ (getApi getName this name = None ↔
       Forall (fun a => getName a ≠ name) (m_apis this)).
Proof.
  unfold getApi. generalize (m_apis this) as apis.
  induction apis as [|a apis [IHs IHn]]; cbn [getApi_loop].
  - split.
    + intros api. split; [discriminate|].
      intros (before & after & Happ & _). by destruct before.
    + split; [constructor|done].
  - case_bool_decide as Ha.
    + split.
      * intros api. split.
        -- intros [= <-]. exists [], apis. by repeat split.
        -- intros (before & after & Happ & Hname & Hbefore).
           destruct before as [|b before]; cbn in Happ.
           ++ by injection Happ as <- _.
           ++ injection Happ as <- _. by inversion Hbefore.
      * split; [discriminate|]. intros Hall. by inversion Hall.
    + split.
      * intros api. rewrite IHs. split.
        -- intros (before & after & -> & Hname & Hbefore).
           exists (a :: before), after. repeat split; [done|by constructor].
        -- intros (before & after & Happ & Hname & Hbefore).
           destruct before as [|b before]; cbn in Happ.
           ++ injection Happ as -> _. done.
           ++ injection Happ as <- ->. inversion Hbefore; subst.
              by exists before, after.
      * rewrite IHn. split; [by constructor|]. intros Hall. by inversion Hall.
Qed.

(* ===================================================================== *)
(** ** The order of strings, sorting and duplicates *)
(* ===================================================================== *)

Lemma QString_ltb_irrefl a : QString_ltb a a = false.
Proof. induction a as [|x a IH]; [done|]. cbn. by rewrite N.ltb_irrefl. Qed.

Lemma QString_ltb_trichotomy a b :
  QString_ltb a b = false -> QString_ltb b a = false -> a = b.
Proof.
  revert b. induction a as [|x a IH]; intros [|y b]; cbn; try done.
  destruct (N.ltb_spec x y), (N.ltb_spec y x); try done; try lia.
  intros Hab Hba. assert (x = y) as -> by lia. f_equal. by apply IH.
Qed.

Lemma QString_ltb_asym a b : QString_ltb a b = true -> QString_ltb b a = false.
Proof.
  revert b. induction a as [|x a IH]; intros [|y b]; cbn; try done.
  destruct (N.ltb_spec x y), (N.ltb_spec y x); try done; try lia. apply IH.
Qed.

Lemma QString_ltb_trans a b c :
  QString_ltb a b = true -> QString_ltb b c = true -> QString_ltb a c = true.
Proof.
  revert b c. induction a as [|x a IH]; intros [|y b] [|z c]; cbn; try done.
  destruct (N.ltb_spec x y), (N.ltb_spec y x), (N.ltb_spec y z), (N.ltb_spec z y),
    (N.ltb_spec x z), (N.ltb_spec z x); try done; try lia.
  apply IH.
Qed.

#[global] Instance QString_le_total : Total QString_le.
Proof.
  intros a b. unfold QString_le.
  destruct (QString_ltb b a) eqn:Hba; [right|by left]. by apply QString_ltb_asym.
Qed.

#[global] Instance QString_le_antisymm : AntiSymm (=) QString_le.
Proof. intros a b Hab Hba. by apply QString_ltb_trichotomy. Qed.

#[global] Instance QString_le_trans : Transitive QString_le.
Proof.
  intros a b c Hab Hbc. unfold QString_le in *.
  destruct (QString_ltb c a) eqn:Hca; [|done].
  destruct (QString_ltb b c) eqn:Hbc'.
  - by rewrite (QString_ltb_trans _ _ _ Hbc' Hca) in Hab.
  - assert (b = c) as -> by by apply QString_ltb_trichotomy. congruence.
Qed.

Lemma sort_Sorted l : Sorted QString_le (sort l).
Proof. apply (Sorted_merge_sort QString_le). Qed.

Lemma sort_Permutation l : sort l ≡ₚ l.
Proof. apply merge_sort_Permutation. Qed.

Lemma elem_of_sort x l : x ∈ sort l ↔ x ∈ l.
Proof. by rewrite sort_Permutation. Qed.

Lemma removeDuplicates_from_spec seen l :
  NoDup (removeDuplicates_from seen l)
  ∧ ∀ x, x ∈ removeDuplicates_from seen l ↔ x ∈ l ∧ x ∉ seen.
Proof.
  revert seen. induction l as [|s l IH]; intros seen; cbn [removeDuplicates_from].
  - split; [constructor|]. intros x. rewrite elem_of_nil. naive_solver.
  - case_bool_decide as Hs.
    + destruct (IH seen) as [Hnd Hin]. split; [done|].
      intros x. rewrite Hin, elem_of_cons. naive_solver.
    + destruct (IH (s :: seen)) as [Hnd Hin]. split.
      * constructor; [|done]. rewrite Hin, elem_of_cons. naive_solver.
      * intros x. rewrite elem_of_cons, Hin, !elem_of_cons.
        destruct (decide (x = s)); naive_solver.
Qed.

Lemma removeDuplicates_NoDup l : NoDup (removeDuplicates l).
Proof. apply removeDuplicates_from_spec. Qed.

Lemma elem_of_removeDuplicates x l : x ∈ removeDuplicates l ↔ x ∈ l.
Proof.
  unfold removeDuplicates.
  rewrite (proj2 (removeDuplicates_from_spec [] l)), elem_of_nil. naive_solver.
Qed.

Lemma elem_of_removeAll x s l : x ∈ removeAll s l ↔ x ∈ l ∧ x ≠ s.
Proof.
  unfold removeAll.
  rewrite !list_elem_of_In, List.filter_In, negb_true_iff, bool_decide_eq_false. done.
Qed.

Lemma removeAll_absent s l : s ∉ l -> removeAll s l = l.
Proof.
  unfold removeAll. induction l as [|x l IH]; [done|].
  rewrite not_elem_of_cons. intros [Hne Hl]. cbn [List.filter].
  rewrite bool_decide_eq_false_2 by done. cbn [negb]. f_equal. by apply IH.
Qed.

(* ===================================================================== *)
(** ** Text written and read back *)
(* ===================================================================== *)

Lemma lineText_asciiText s : lineText s -> asciiText s.
Proof. intros Hs. eapply Forall_impl; [exact Hs|]. cbn. naive_solver. Qed.

Lemma toLatin1_ascii s : asciiText s -> toLatin1 s = s.
Proof.
  induction 1 as [|c s Hc _ IH]; [done|]. cbn [toLatin1 List.map].
  fold (toLatin1 s). rewrite IH.
  destruct (N.ltb_spec c 256); [done|lia].
Qed.

Lemma fromUtf8_loop_ascii fuel s :
  asciiText s -> (length s <= fuel)%nat -> fromUtf8_loop fuel s = s.
Proof.
  intros Hs. revert fuel. induction Hs as [|c s Hc _ IH]; intros [|fuel] Hlen; try done.
  - cbn in Hlen. lia.
  - cbn [fromUtf8_loop]. destruct (N.ltb_spec c 128); [|lia].
    f_equal. apply IH. cbn in Hlen. lia.
Qed.

Lemma fromUtf8_ascii s : asciiText s -> fromUtf8 s = s.
Proof.
  intros Hs. unfold fromUtf8. case_bool_decide as Hbom.
  - destruct Hs as [|c s Hc _]; [done|]. cbn in Hbom. unfold utf8bom in Hbom.
    injection Hbom as -> _. lia.
  - by apply fromUtf8_loop_ascii.
Qed.

Lemma join_cons_cons sep s t l : join sep (s :: t :: l) = s ++ sep ++ join sep (t :: l).
Proof. done. Qed.

Lemma join_asciiText sep l :
  asciiText sep -> Forall asciiText l -> asciiText (join sep l).
Proof.
  intros Hsep. induction 1 as [|s l Hs Hl IH]; [constructor|].
  destruct l as [|t l]; [done|]. rewrite join_cons_cons.
  unfold asciiText in *. rewrite !Forall_app. done.
Qed.

Lemma removeChar_app c s t : removeChar c (s ++ t) = removeChar c s ++ removeChar c t.
Proof. unfold removeChar. apply List.filter_app. Qed.

Lemma removeChar_absent c s : c ∉ s -> removeChar c s = s.
Proof.
  unfold removeChar. induction s as [|x s IH]; [done|].
  rewrite not_elem_of_cons. intros [Hne Hs]. cbn [List.filter].
  destruct (N.eqb_spec x c); [congruence|]. cbn [negb]. f_equal. by apply IH.
Qed.

Lemma removeChar_join_CRLF l :
  Forall (fun s => CR ∉ s) l -> removeChar CR (join [CR; LF] l) = join [LF] l.
Proof.
  induction 1 as [|s l Hs Hl IH]; [done|].
  destruct l as [|t l]; [by apply removeChar_absent|].
  rewrite !join_cons_cons, !removeChar_app, IH, removeChar_absent by done.
  done.
Qed.

Lemma splitKeep_not_nil c s : splitKeep c s ≠ [].
Proof. destruct s as [|x s]; [done|]. cbn. destruct (x =? c); [done|]. by case_match. Qed.

Lemma splitKeep_absent c s : c ∉ s -> splitKeep c s = [s].
Proof.
  induction s as [|x s IH]; [done|].
  rewrite not_elem_of_cons. intros [Hne Hs]. cbn [splitKeep].
  destruct (N.eqb_spec x c); [congruence|]. by rewrite IH.
Qed.

Lemma splitKeep_app c s t :
  c ∉ s -> splitKeep c (s ++ c :: t) = s :: splitKeep c t.
Proof.
  induction s as [|x s IH]; cbn [app splitKeep].
  - intros _. by rewrite N.eqb_refl.
  - rewrite not_elem_of_cons. intros [Hne Hs].
    destruct (N.eqb_spec x c); [congruence|]. by rewrite IH.
Qed.

Lemma splitKeep_join c l :
  l ≠ [] -> Forall (fun s => c ∉ s) l -> splitKeep c (join [c] l) = l.
Proof.
  intros Hne Hl. induction Hl as [|s l Hs Hl IH]; [done|].
  destruct l as [|t l]; [by apply splitKeep_absent|].
  rewrite join_cons_cons. cbn [app]. rewrite splitKeep_app by done.
  f_equal. by apply IH.
Qed.

Lemma split_join c l :
  Forall (fun s => c ∉ s) l ->
  split c (join [c] l) = List.filter (fun p => negb (isEmpty p)) l.
Proof.
  intros Hl. unfold split. destruct l as [|s l]; [done|].
  by rewrite splitKeep_join.
Qed.

(** The parts of a split hold no separator, and only characters of the
    text that was split. *)
Lemma splitKeep_parts c s :
  Forall (fun p => (c ∉ p) ∧ (∀ x, x ∈ p -> x ∈ s)) (splitKeep c s).
Proof.
  induction s as [|x s IH]; cbn [splitKeep].
  - repeat constructor; [apply not_elem_of_nil|done].
  - destruct (N.eqb_spec x c) as [->|Hne].
    + constructor; [split; [apply not_elem_of_nil|by intros ? ?%elem_of_nil]|].
      eapply Forall_impl; [exact IH|]. cbn. intros p [? Hp]. split; [done|].
      intros y Hy. right. by apply Hp.
    + destruct (splitKeep c s) as [|p ps] eqn:Hsplit.
      * by destruct (splitKeep_not_nil c s).
      * inversion IH as [|? ? [Hc Hp] Hps]; subst. constructor.
        -- split; [rewrite not_elem_of_cons; naive_solver|].
           intros y [->|Hy]%elem_of_cons; [by left|by right; apply Hp].
        -- eapply Forall_impl; [exact Hps|]. cbn. intros q [? Hq]. split; [done|].
           intros y Hy. right. by apply Hq.
Qed.

Lemma elem_of_removeChar x c s : x ∈ removeChar c s ↔ x ∈ s ∧ x ≠ c.
Proof.
  unfold removeChar.
  rewrite !list_elem_of_In, List.filter_In, negb_true_iff, N.eqb_neq. done.
Qed.

(** The entries read from a plain ASCII file are non-empty one-line
    texts. *)
Lemma parseSites_entries raw :
  asciiText raw -> Forall (fun p => p ≠ [] ∧ lineText p) (parseSites raw).
Proof.
  intros Hraw. unfold parseSites, split. rewrite fromUtf8_ascii by done.
  apply Forall_forall. intros p.
  rewrite list_elem_of_In, List.filter_In, <- list_elem_of_In, negb_true_iff.
  intros [Hp Hne]. split; [by destruct p|].
  pose proof (splitKeep_parts LF (removeChar CR raw)) as Hparts.
  rewrite Forall_forall in Hparts. destruct (Hparts p Hp) as [Hlf Hsub].
  apply Forall_forall. intros x Hx.
  pose proof (Hsub x Hx) as [Hin Hcr]%elem_of_removeChar.
  unfold asciiText in Hraw. rewrite Forall_forall in Hraw.
  repeat split; [by apply Hraw| |done]. by intros ->.
Qed.

(** What is read back from a list of one-line texts written to the
    disk: the list itself, without its empty entries. *)
Lemma parseSites_written l :
  Forall lineText l ->
  parseSites (toLatin1 (join [CR; LF] l)) = List.filter (fun p => negb (isEmpty p)) l.
Proof.
  intros Hl.
  assert (Hascii : asciiText (join [CR; LF] l)).
  { apply join_asciiText.
    - repeat constructor; unfold CR, LF; lia.
    - eapply Forall_impl; [exact Hl|]. apply lineText_asciiText. }
  unfold parseSites. rewrite toLatin1_ascii, fromUtf8_ascii by done.
  rewrite removeChar_join_CRLF.
  - apply split_join. eapply Forall_impl; [exact Hl|]. cbn. intros s Hs Hin.
    unfold lineText in Hs. rewrite Forall_forall in Hs. naive_solver.
  - eapply Forall_impl; [exact Hl|]. cbn. intros s Hs Hin.
    unfold lineText in Hs. rewrite Forall_forall in Hs. naive_solver.
Qed.

Lemma filter_nonEmpty_id (l : list (list N)) :
  Forall (fun p => p ≠ []) l -> List.filter (fun p => negb (isEmpty p)) l = l.
Proof.
  induction 1 as [|p l Hp _ IH]; [done|]. cbn [List.filter].
  destruct p; [done|]. cbn. by rewrite IH.
Qed.

(* ===================================================================== *)
(** ** Properties of the endpoint list store *)
(* ===================================================================== *)

Lemma StronglySorted_filter {A} (R : relation A) (f : A -> bool) l :
  StronglySorted R l -> StronglySorted R (List.filter f l).
Proof.
  induction 1 as [|x l Hl IH Hx]; [constructor|]. cbn [List.filter].
  destruct (f x); [|done]. constructor; [done|].
  apply List.Forall_forall. intros y [Hy _]%List.filter_In.
  revert y Hy. by apply List.Forall_forall.
Qed.

Lemma Sorted_filter_nonEmpty (l : list (list N)) :
  Sorted QString_le l -> Sorted QString_le (List.filter (fun p => negb (isEmpty p)) l).
Proof.
  intros Hl. apply StronglySorted_Sorted, StronglySorted_filter.
  apply Sorted_StronglySorted; [|done]. intros a b c. apply QString_le_trans.
Qed.

Lemma addSite_writes site dir raw :
  sites_txt dir = Some raw -> sites_txt_writable dir = true ->
  addSite site dir =
  (true, mkPluginDir (dir_path dir) (model_js dir)
           (Some (toLatin1 (join [CR; LF]
                    (sort (removeDuplicates (parseSites raw ++ [url site]))))))
           (supported_txt dir) true).
Proof. intros Hraw Hw. unfold addSite, writeFile. by rewrite Hraw, Hw. Qed.

Lemma removeSite_writes site dir raw :
  sites_txt dir = Some raw -> sites_txt_writable dir = true ->
  removeSite site dir =
  (true, mkPluginDir (dir_path dir) (model_js dir)
           (Some (toLatin1 (join [CR; LF] (removeAll (url site) (parseSites raw)))))
           (supported_txt dir) true).
Proof. intros Hraw Hw. unfold removeSite, writeFile. by rewrite Hraw, Hw. Qed.

(** The list [addSite] computes from the entries [l0] and the URL [u]. *)
Lemma added_list_spec l0 u :
  let sites := sort (removeDuplicates (l0 ++ [u])) in
  Sorted QString_le sites ∧ NoDup sites ∧ ∀ x, x ∈ sites ↔ x ∈ l0 ∨ x = u.
Proof.
  cbn zeta. split; [apply sort_Sorted|]. split.
  - rewrite sort_Permutation. apply removeDuplicates_NoDup.
  - intros x. rewrite elem_of_sort, elem_of_removeDuplicates, elem_of_app, list_elem_of_singleton.
    done.
Qed.

Lemma elem_of_filter_nonEmpty (x : list N) l :
  x ∈ List.filter (fun p => negb (isEmpty p)) l ↔ x ∈ l ∧ x ≠ [].
Proof.
  rewrite !list_elem_of_In, List.filter_In, negb_true_iff. destruct x; naive_solver.
Qed.

(** Adding [u] again to what the first addition left on the disk gives
    the same list. *)
Lemma added_list_again l0 u :
  Forall (fun p => p ≠ []) l0 ->
  let sites := sort (removeDuplicates (l0 ++ [u])) in
  sort (removeDuplicates (List.filter (fun p => negb (isEmpty p)) sites ++ [u])) = sites.
Proof.
  intros Hl0 sites.
  destruct (added_list_spec l0 u) as (Hs1 & Hn1 & Hin1). fold sites in Hs1, Hn1, Hin1.
  destruct (added_list_spec (List.filter (fun p => negb (isEmpty p)) sites) u)
    as (Hs2 & Hn2 & Hin2).
  apply (Sorted_unique QString_le); [done..|].
  apply NoDup_Permutation; [done..|].
  intros x. rewrite Hin2, elem_of_filter_nonEmpty, Hin1.
  rewrite Forall_forall in Hl0. naive_solver.
Qed.

(** C6, amended.  An addition that succeeds writes a list that is
    sorted and has no duplicates: the entries read, and the URL.  When
    the file is plain ASCII text and the URL a one-line ASCII text,
    adding the URL twice leaves what adding it once leaves: the same
    file, hence the same endpoint list, as a list and as a set; and the
    list an addition leaves on the disk, read back, is sorted and without
    duplicates. *)
Theorem C6_addSite_idempotent_sorted_unique
    (site : Site) (dir : PluginDir) (raw : list N) :
  sites_txt dir = Some raw ->
  sites_txt_writable dir = true ->
  let once := addSite site dir in
  let twice := addSite site once.2 in
  once.1 = true ∧ twice.1 = true
  ∧ (∃ sites, sites_txt once.2 = Some (toLatin1 (join [CR; LF] sites))
       ∧ Sorted QString_le sites
       ∧ NoDup sites
       ∧ ∀ x, x ∈ sites ↔ x ∈ parseSites raw ∨ x = url site)
  ∧ (asciiText raw -> lineText (url site) ->
       twice.2 = once.2
       ∧ ∃ l, sitesOnDisk once.2 = Some l
           ∧ sitesOnDisk twice.2 = Some l
           ∧ Sorted QString_le l
           ∧ NoDup l
           ∧ ∀ x, x ∈ l ↔ x ∈ parseSites raw ∨ (x = url site ∧ x ≠ [])).
Proof.
  intros Hraw Hw once twice.
  set (l0 := parseSites raw) in *.
  set (sites := sort (removeDuplicates (l0 ++ [url site]))).
  destruct (added_list_spec l0 (url site)) as (Hsorted & Hnodup & Hin).
  fold sites in Hsorted, Hnodup, Hin.
  assert (Honce : once = (true, mkPluginDir (dir_path dir) (model_js dir)
                                  (Some (toLatin1 (join [CR; LF] sites)))
                                  (supported_txt dir) true)).
  { unfold once. by rewrite (addSite_writes site dir raw). }
  assert (Htwice : twice.1 = true).
  { unfold twice. rewrite Honce. cbn [snd]. by erewrite addSite_writes. }
  split; [by rewrite Honce|]. split; [done|]. split.
  { exists sites. rewrite Honce. by split_and!. }
  intros Hascii Hurl.
  pose proof (parseSites_entries raw Hascii) as Hl0. fold l0 in Hl0.
  assert (Hlines : Forall lineText sites).
  { apply Forall_forall. intros x [Hx| ->]%Hin; [|done].
    rewrite Forall_forall in Hl0. by apply Hl0. }
  assert (Hsame : twice = once).
  { unfold twice. rewrite Honce. cbn [snd].
    erewrite addSite_writes; [|reflexivity..]. cbn [dir_path model_js supported_txt].
    rewrite (parseSites_written sites Hlines).
    unfold sites at 1. rewrite added_list_again; [done|].
    eapply Forall_impl; [exact Hl0|]. by intros ? [? _]. }
  rewrite Hsame, Honce. cbn [fst snd]. split; [done|].
  exists (List.filter (fun p => negb (isEmpty p)) sites).
  unfold sitesOnDisk. cbn [sites_txt fmap option_fmap option_map].
  rewrite (parseSites_written sites Hlines). repeat split; try done.
  - by apply Sorted_filter_nonEmpty.
  - by apply NoDup_ListNoDup, List.NoDup_filter, NoDup_ListNoDup.
  - rewrite elem_of_filter_nonEmpty, Hin. rewrite Forall_forall in Hl0. naive_solver.
  - rewrite elem_of_filter_nonEmpty, Hin. rewrite Forall_forall in Hl0. naive_solver.
Qed.

(** C6, as the claim states it, fails outside one-line ASCII text.  The
    file is written in Latin-1 (line 229) and read as UTF-8 (line 219),
    and an entry takes one line.  Adding "caf", U+00E9, ".example" to an
    empty file twice leaves two entries where adding it once leaves one;
    adding U+6587 to a file that holds U+4E2D leaves the entry "?" twice;
    and adding a URL of two lines twice leaves each line twice. *)
Lemma C6_addSite_outside_ascii :
  let empty := mkPluginDir (qstr "sites/Example") None (Some []) None true in
  let cafe := mkSite (qstr "caf" ++ [233] ++ qstr ".example") in
  let read := qstr "caf" ++ [65533] ++ qstr ".example" in
  let holds_U4E2D := mkPluginDir (qstr "sites/Example") None (Some [228; 184; 173]) None true in
  let U6587 := mkSite [25991] in
  let lines := mkSite (qstr "a" ++ [LF] ++ qstr "b") in
  ((addSite cafe empty).1 = true
   ∧ (addSite cafe (addSite cafe empty).2).1 = true
   ∧ sitesOnDisk (addSite cafe empty).2 = Some [read]
   ∧ sitesOnDisk (addSite cafe (addSite cafe empty).2).2 = Some [read; qstr "caf?.example"]
   ∧ ¬ (∀ x, x ∈ [read; qstr "caf?.example"] ↔ x ∈ [read]))
  ∧ ((addSite U6587 holds_U4E2D).1 = true
     ∧ sitesOnDisk (addSite U6587 holds_U4E2D).2 = Some [qstr "?"; qstr "?"]
     ∧ ¬ NoDup [qstr "?"; qstr "?"])
  ∧ ((addSite lines (addSite lines empty).2).1 = true
     ∧ sitesOnDisk (addSite lines (addSite lines empty).2).2
       = Some [qstr "a"; qstr "a"; qstr "b"; qstr "b"]
     ∧ ¬ NoDup [qstr "a"; qstr "a"; qstr "b"; qstr "b"]).
Proof.
  cbn zeta. split_and!; try (vm_compute; reflexivity).
  - intros Hsame.
    assert (Hin : qstr "caf?.example" ∈ [qstr "caf" ++ [65533] ++ qstr ".example"]).
    { apply Hsame. right. by left. }
    apply list_elem_of_singleton in Hin. vm_compute in Hin. discriminate Hin.
  - intros [Hfresh _]%NoDup_cons. apply Hfresh. by left.
  - intros [Hfresh _]%NoDup_cons. apply Hfresh. by left.
Qed.

(** What [removeSite] leaves on the disk, read back. *)
Lemma removed_list_on_disk u raw :
  asciiText raw ->
  parseSites (toLatin1 (join [CR; LF] (removeAll u (parseSites raw))))
  = removeAll u (parseSites raw).
Proof.
  intros Hascii. pose proof (parseSites_entries raw Hascii) as Hl0.
  assert (Hkept : Forall (fun p => p ≠ [] ∧ lineText p) (removeAll u (parseSites raw))).
  { apply Forall_forall. intros x [Hx _]%elem_of_removeAll.
    rewrite Forall_forall in Hl0. by apply Hl0. }
  rewrite parseSites_written.
  - apply filter_nonEmpty_id. eapply Forall_impl; [exact Hkept|]. by intros ? [? _].
  - eapply Forall_impl; [exact Hkept|]. by intros ? [_ ?].
Qed.



(* ===================================================================== *)
(** ** Properties of the lines read at construction *)
(* ===================================================================== *)

Lemma readTrimmedLines_fold (lines : list (list N)) (acc : list (list N)) :
  fold_left
    (fun acc raw =>
       let line := fromUtf8 (trimmed (textLine raw)) in
       if isEmpty line then acc else acc ++ [line])
    lines acc
  = acc ++ List.filter (fun line => negb (isEmpty line))
             (List.map (fun line => fromUtf8 (trimmed (textLine line))) lines).
Proof.
  revert acc. induction lines as [|line lines IH]; intros acc;
    cbn [fold_left List.map List.filter].
  - by rewrite app_nil_r.
  - rewrite IH. cbn zeta. destruct (isEmpty _); cbn [negb]; [done|].
    by rewrite <- app_assoc.
Qed.

Lemma readTrimmedLines_storedLines raw : readTrimmedLines raw = storedLines raw.
Proof. unfold readTrimmedLines. by rewrite readTrimmedLines_fold. Qed.



Lemma trimLeft_split s :
  ∃ k, s = k ++ trimLeft s ∧ Forall (fun c => ascii_isspace c = true) k.
Proof.
  induction s as [|c s (k & Hk & Hsp)]; [by exists []|].
  cbn [trimLeft]. destruct (ascii_isspace c) eqn:Hc.
  - exists (c :: k). split; [by rewrite Hk at 1|by constructor].
  - by exists [].
Qed.


(** A text is its trimmed form between two runs of white space. *)
Lemma trimmed_split s :
  ∃ pre post, s = pre ++ trimmed s ++ post
    ∧ Forall (fun c => ascii_isspace c = true) pre
    ∧ Forall (fun c => ascii_isspace c = true) post.
Proof.
  destruct (trimLeft_split s) as (k1 & H1 & Hk1).
  destruct (trimLeft_split (rev (trimLeft s))) as (k2 & H2 & Hk2).
  exists k1, (rev k2). repeat split; [|done|by apply List.Forall_rev].
  unfold trimmed. rewrite <- rev_app_distr, <- H2, rev_involutive. done.
Qed.


Lemma trimmed_elem x s : x ∈ trimmed s -> x ∈ s.
Proof.
  destruct (trimmed_split s) as (pre & post & Hs & _). intros Hx.
  rewrite Hs, !elem_of_app. by right; left.
Qed.










(* ===================================================================== *)
(** ** The shared runtime and the lock *)
(* ===================================================================== *)

Lemma jsEngineMutex_spec p :
  let mutex := (jsEngineMutex p).1 in
  let p' := (jsEngineMutex p).2 in
  mutexStatic p' = Some mutex
  ∧ (∀ m, mutexStatic p = Some m -> mutex = m)
  ∧ trace p' = trace p ∧ logged p' = logged p ∧ engineStatic p' = engineStatic p.
Proof.
  unfold jsEngineMutex. destruct (mutexStatic p) as [m|] eqn:Hm; cbn.
  - repeat split; try done. by intros ? [= ->].
  - by repeat split.
Qed.

(** The loop over [apis] touches neither the trace nor the log; the
    Apis it appends all hold the process-wide mutex. *)
Lemma readApis_spec engine jsSource entries acc p :
  let apis := (readApis engine jsSource entries acc p).1 in
  let p' := (readApis engine jsSource entries acc p).2 in
  trace p' = trace p ∧ logged p' = logged p
  ∧ (∀ m, mutexStatic p = Some m -> mutexStatic p' = Some m)
  ∧ ∃ new, apis = acc ++ new
      ∧ List.map api_key new = List.map fst entries
      ∧ Forall (fun api => mutexStatic p' = Some (api_engineMutex api)) new.
Proof.
  revert acc p. induction entries as [|[name value] entries IH]; intros acc p.
  - cbn. repeat split; try done. exists []. by rewrite app_nil_r.
  - cbn [readApis]. unfold mbind, Run_bind.
    destruct (jsEngineMutex_spec p) as (Hm & Hsame & Ht & Hl & _).
    destruct (jsEngineMutex p) as [mutex p1]. cbn [fst snd] in *.
    destruct (IH (acc ++ [JavascriptApi engine jsSource mutex name]) p1)
      as (Ht' & Hl' & Hkeep & new & Hnew & Hkeys & Hall).
    split; [congruence|]. split; [congruence|]. split.
    + intros m Hp. apply Hkeep. rewrite Hm. f_equal. by apply Hsame.
    + exists (JavascriptApi engine jsSource mutex name :: new).
      split; [by rewrite Hnew, <- app_assoc|]. split; [cbn; by f_equal|].
      constructor; [|done]. cbn. by apply Hkeep.
Qed.

Lemma readDocument_spec engine jsSource p :
  let doc := (readDocument engine jsSource p).1 in
  let p' := (readDocument engine jsSource p).2 in
  trace p' = trace p
  ∧ (∀ m, mutexStatic p = Some m -> mutexStatic p' = Some m)
  ∧ Forall (fun api => mutexStatic p' = Some (api_engineMutex api)) (doc_apis doc).
Proof.
  unfold readDocument. run_unfold.
  destruct (readApis_spec engine jsSource
              (ownProperties (property jsSource (qstr "apis"))) [] p)
    as (Ht & _ & Hkeep & new & Hnew & _ & Hall).
  destruct (readApis _ _ _ _ p) as [apis p1]. cbn [fst snd] in *.
  cbn [app] in Hnew. subst new.
  destruct (isEmpty apis); cbn [fst snd trace mutexStatic doc_apis]; done.
Qed.

(** What the script model does with the runtime: one evaluation when
    model.js can be read, nothing otherwise; no lock, no unlock. *)
Lemma readModel_runtime buildJsEngine diskName dir p :
  let doc := (readModel buildJsEngine diskName dir p).1 in
  let p' := (readModel buildJsEngine diskName dir p).2 in
  (∀ m, mutexStatic p = Some m -> mutexStatic p' = Some m)
  ∧ Forall (fun api => mutexStatic p' = Some (api_engineMutex api)) (doc_apis doc)
  ∧ match model_js dir with
    | Some content => ∃ src, trace p' = trace p ++ [EngineEvaluate src (readPath dir (qstr "model.js"))]
    | None => trace p' = trace p
    end.
Proof.
  unfold readModel. destruct (model_js dir) as [content|]; run_unfold.
  - destruct (engineStatic p) as [engine|] eqn:He;
      cbn [engineStatic mutexStatic mutexCount logged trace fst snd].
    all: match goal with
         | |- context [isError (evaluate ?e ?s ?f)] =>
             destruct (isError (evaluate e s f)) eqn:Herr
         end;
      cbn [engineStatic mutexStatic mutexCount logged trace fst snd doc_apis].
    all: try (repeat split; [done|constructor|by eexists]).
    all: match goal with
         | |- context [readDocument ?e ?j ?q] =>
             destruct (readDocument_spec e j q) as (Ht & Hkeep & Hall)
         end; cbn [trace mutexStatic] in *.
    all: repeat split; [done|done|]; rewrite Ht; by eexists.
  - cbn. repeat split; [done|constructor].
Qed.

(** C8, as the code has it.  The constructor evaluates the document
    through the shared runtime without taking the lock: what it adds to
    the trace is one evaluation when model.js can be read and nothing
    otherwise, never a lock or an unlock, so the evaluation is not
    serialized by any mutex.  The process-wide mutex, once created, stays
    the same, and every Api the Source creates is handed that mutex. *)
Theorem C8_construction_takes_no_lock
    (buildJsEngine : list N -> QJSEngine) (nightly : bool) (profile : nat)
    (dir : PluginDir) (p : Process) :
  let s := (Source_new buildJsEngine nightly profile dir p).1 in
  let p' := (Source_new buildJsEngine nightly profile dir p).2 in
  (∃ new, trace p' = trace p ++ new
     ∧ Forall (fun ev => ∃ src fileName, ev = EngineEvaluate src fileName) new
     ∧ (is_Some (model_js dir) ->
          (∃ src, new = [EngineEvaluate src (readPath dir (qstr "model.js"))])
          ∧ ∀ mutex, serialized mutex new = false)
     ∧ (model_js dir = None -> new = []))
  ∧ (∀ mutex, mutexStatic p = Some mutex -> mutexStatic p' = Some mutex)
  ∧ Forall (fun api => mutexStatic p' = Some (api_engineMutex api)) (m_apis s).
Proof.
  rewrite Source_new_unfold. cbn zeta. cbn [fst snd m_apis].
  destruct (readModel_runtime buildJsEngine (fileName (dir_path dir)) dir p)
    as (Hkeep & Hall & Htrace).
  set (p1 := (readModel buildJsEngine (fileName (dir_path dir)) dir p).2) in *.
  assert (Hlog : ∀ (b : bool) msg,
             trace (if b then (log msg Debug p1).2 else p1) = trace p1
             ∧ mutexStatic (if b then (log msg Debug p1).2 else p1) = mutexStatic p1).
  { by intros [|] msg. }
  match goal with
  | |- context [if ?b then (log ?msg Debug p1).2 else p1] =>
      destruct (Hlog b msg) as [-> ->]
  end.
  split; [|done].
  destruct (model_js dir) as [content|].
  - destruct Htrace as [src Htrace]. exists [EngineEvaluate src (readPath dir (qstr "model.js"))].
    split; [done|]. split; [repeat constructor; by eexists _, _|].
    split; [|done]. intros _. split; [by eexists|done].
  - exists []. rewrite app_nil_r. split; [done|]. split; [constructor|].
    split; [|done]. by intros [? ?].
Qed.

(** C8, as the claim states it, fails: a Source is constructed from a
    directory with a script model; the process-wide mutex exists and the
    Api of the Source holds it, yet the one evaluation in the trace
    happens outside of any lock of that mutex. *)
Lemma C8_document_evaluated_outside_lock :
  let engine :=
    mkEngine (fun _ _ =>
      JSObject [(qstr "name", JSString (qstr "Example"));
                (qstr "apis", JSObject [(qstr "json", JSObject [])])]) in
  let dir := mkPluginDir (qstr "sites/Example")
               (Some (qstr "export var source = {};")) None None true in
  let start := mkProcess None None 0 [] [] in
  let s := (Source_new (fun _ => engine) false 0 dir start).1 in
  let p' := (Source_new (fun _ => engine) false 0 dir start).2 in
  ∃ mutex src fileName,
    mutexStatic p' = Some mutex
    ∧ List.map api_engineMutex (m_apis s) = [mutex]
    ∧ trace p' = [EngineEvaluate src fileName]
    ∧ serialized mutex (trace p') = false.
Proof. cbn zeta. do 3 eexists. by vm_compute. Qed.

(* ===================================================================== *)
(** ** The theorems at concrete inputs *)
(* ===================================================================== *)

(** C1 at a scheme without [type] and with two field descriptions. *)
Lemma C1_witness :
  let auth :=
    JSObject [(qstr "fields",
               JSArray [JSObject [(qstr "key", JSString (qstr "login"))];
                        JSObject [(qstr "key", JSString (qstr "password"));
                                  (qstr "type", JSString (qstr "password"))]])] in
  isUndefined (property auth (qstr "type")) = true
  ∧ ∃ maxPage,
      buildAuth auth
      = Some (UrlAuth (qstr "undefined")
                [AuthPlainField [] (qstr "login") Text [];
                 AuthPlainField [] (qstr "password") Password []] maxPage).
Proof.
  cbn zeta. split; [vm_compute; reflexivity|].
  match goal with |- context [buildAuth ?a] => set (auth := a) end.
  destruct (C1_url_auth_fields_in_document_order auth (or_introl eq_refl))
    as (maxPage & Hbuild & Harray & _).
  exists maxPage. rewrite Hbuild, (Harray _ eq_refl) by (cbn; lia).
  vm_compute. reflexivity.
Defined.

(** C2 at a salted SHA-1 field. *)
Lemma C2_witness :
  let field :=
    JSObject [(qstr "key", JSString (qstr "password_hash"));
              (qstr "type", JSString (qstr "hash"));
              (qstr "hash", JSString (qstr "sha1"));
              (qstr "salt", JSString (qstr "choujin-steiner--%value%--"))] in
  toString (property field (qstr "type")) = qstr "hash"
  ∧ ∃ key salt, buildField field = AuthHashField key Sha1 salt.
Proof.
  cbn zeta. split; [vm_compute; reflexivity|].
  match goal with |- context [buildField ?f] => set (field := f) end.
  destruct (C2_hash_field_algorithm field eq_refl)
    as (key & algo & salt & Hbuild & Hsha1 & _).
  exists key, salt. rewrite Hbuild. f_equal. apply Hsha1. vm_compute. reflexivity.
Defined.

(** C5 at an engine that reports a syntax error on line 3. *)
Lemma C5_witness :
  let engine := mkEngine (fun _ _ => JSError (qstr "SyntaxError") (qstr "Unexpected token") 3) in
  let dir := mkPluginDir (qstr "sites/Example")
               (Some (qstr "export var source = {")) None None true in
  let start := mkProcess None None 0 [] [] in
  let s := (Source_new (fun _ => engine) false 0 dir start).1 in
  let p' := (Source_new (fun _ => engine) false 0 dir start).2 in
  isError (m_jsSource s) = true
  ∧ m_name s = [] ∧ m_apis s = [] ∧ m_auths s = ∅
  ∧ (Error, qstr "Uncaught exception at line 3: SyntaxError: Unexpected token") ∈ logged p'.
Proof.
  cbn zeta.
  match goal with
  | |- context [Source_new ?b ?n ?pr ?d ?p] =>
      pose proof (C5_evaluation_error_gives_empty_source b n pr d p) as H
  end.
  cbn zeta in H. specialize (H eq_refl). destruct H as (Hname & Hapis & Hauths & Hlog & _).
  split; [vm_compute; reflexivity|]. do 3 (split; [assumption|]). exact Hlog.
Defined.

(** C6 at a list of two endpoints and a third URL. *)
Lemma C6_witness :
  let raw := qstr "c.example" ++ [LF] ++ qstr "a.example" ++ [CR; LF] in
  let dir := mkPluginDir (qstr "sites/Example") None (Some raw) None true in
  let site := mkSite (qstr "b.example") in
  (asciiText raw ∧ lineText (url site))
  ∧ (addSite site dir).1 = true
  ∧ (addSite site (addSite site dir).2).2 = (addSite site dir).2
  ∧ ∃ l, sitesOnDisk (addSite site dir).2 = Some l ∧ Sorted QString_le l ∧ NoDup l.
Proof.
  cbn zeta.
  match goal with
  | |- context [addSite ?s ?d] =>
      match d with
      | mkPluginDir _ _ (Some ?r) _ _ =>
          assert (Hascii : asciiText r) by (apply (bool_decide_unpack _); vm_compute; exact I);
          assert (Hline : lineText (url s)) by (apply (bool_decide_unpack _); vm_compute; exact I);
          pose proof (C6_addSite_idempotent_sorted_unique s d r eq_refl eq_refl) as H
      end
  end.
  cbn zeta in H. destruct H as (Honce & _ & _ & Hback).
  destruct (Hback Hascii Hline) as (Hsame & l & Hl & _ & Hsorted & Hnodup & _).
  split; [by split|]. split; [exact Honce|]. split; [exact Hsame|]. by exists l.
Defined.


(** C8 at a directory with a script model, in a fresh process. *)
Lemma C8_witness :
  let engine :=
    mkEngine (fun _ _ =>
      JSObject [(qstr "name", JSString (qstr "Example"));
                (qstr "apis", JSObject [(qstr "json", JSObject []);
                                        (qstr "html", JSObject [])])]) in
  let dir := mkPluginDir (qstr "sites/Example")
               (Some (qstr "export var source = {};")) None None true in
  let start := mkProcess None None 0 [] [] in
  let s := (Source_new (fun _ => engine) false 0 dir start).1 in
  let p' := (Source_new (fun _ => engine) false 0 dir start).2 in
  is_Some (model_js dir)
  ∧ mutexStatic p' = Some (mkMutex 0)
  ∧ serialized (mkMutex 0) (trace p') = false
  ∧ Forall (fun api => mutexStatic p' = Some (api_engineMutex api)) (m_apis s).
Proof.
  cbn zeta.
  match goal with
  | |- context [Source_new ?b ?n ?pr ?d ?p] =>
      pose proof (C8_construction_takes_no_lock b n pr d p) as H
  end.
  cbn zeta in H. destruct H as ((new & Htrace & _ & Hmodel & _) & _ & Hapis).
  assert (Hjs : is_Some (Some (qstr "export var source = {};"))) by by eexists.
  split; [exact Hjs|]. split; [vm_compute; reflexivity|]. split; [|exact Hapis].
  rewrite Htrace. cbn [trace app].
  by apply (Hmodel Hjs).
Defined.


(* ===================================================================== *)
(** ** Further properties: the process-wide engine and mutex *)
(* ===================================================================== *)

Lemma jsEngineMutex_eq p :
  (jsEngineMutex p).1 = mutexFor p
  ∧ mutexStatic (jsEngineMutex p).2 = Some (mutexFor p)
  ∧ engineStatic (jsEngineMutex p).2 = engineStatic p
  ∧ logged (jsEngineMutex p).2 = logged p
  ∧ trace (jsEngineMutex p).2 = trace p.
Proof.
  unfold jsEngineMutex, mutexFor.
  destruct (mutexStatic p) as [m|] eqn:Hm; cbn; by rewrite ?Hm.
Qed.

Lemma jsEngineMutex_again p :
  jsEngineMutex (jsEngineMutex p).2 = ((jsEngineMutex p).1, (jsEngineMutex p).2).
Proof.
  unfold jsEngineMutex.
  destruct (mutexStatic p) as [m|] eqn:Hm; cbn; by rewrite ?Hm.
Qed.

(** The loop over [apis], in closed form: one Api per entry, in order,
    all with the mutex of the process. *)
Lemma readApis_eq engine jsSource entries acc p :
  readApis engine jsSource entries acc p
  = (acc ++ List.map (fun entry => JavascriptApi engine jsSource (mutexFor p) entry.1) entries,
     if isEmpty entries then p else (jsEngineMutex p).2).
Proof.
  revert acc p. induction entries as [|[name value] entries IH]; intros acc p.
  - cbn. by rewrite app_nil_r.
  - cbn [readApis]. unfold mbind, Run_bind.
    destruct (jsEngineMutex_eq p) as (Hm & Hs & _).
    destruct (jsEngineMutex p) as [mutex p1] eqn:Hp1. cbn [fst snd] in *.
    rewrite IH. cbn [List.map isEmpty fst]. rewrite <- app_assoc. cbn [app].
    assert (Hfor : mutexFor p1 = mutexFor p).
    { unfold mutexFor at 1. by rewrite Hs. }
    rewrite Hfor, Hm. f_equal.
    destruct entries; cbn [isEmpty]; [done|].
    pose proof (jsEngineMutex_again p) as Hagain. rewrite Hp1 in Hagain. cbn in Hagain.
    by rewrite Hagain.
Qed.

(** X1. The engine is built once per process: the first call of
    [jsEngine] builds it from the helper script next to the directory it
    is called for, and every later call, for whatever directory, returns
    that same engine and changes nothing. *)
Theorem X1_jsEngine_built_once
    (buildJsEngine : list N -> QJSEngine) (dir1 dir2 : PluginDir) (p : Process) :
  let first := jsEngine buildJsEngine dir1 p in
  let second := jsEngine buildJsEngine dir2 first.2 in
  second = first
  ∧ engineStatic first.2 = Some first.1
  ∧ (engineStatic p = None ->
       first.1 = buildJsEngine (readPath dir1 (qstr "../helper.js")))
  ∧ (∀ engine, engineStatic p = Some engine -> first = (engine, p)).
Proof.
  unfold jsEngine. destruct (engineStatic p) as [engine|] eqn:He; cbn.
  - rewrite He. split_and!; try done. by intros ? [= ->].
  - by split_and!.
Qed.

(** X1 at a process without engine. *)
Lemma X1_witness :
  let build := fun helper : list N => mkEngine (fun _ _ => JSString helper) in
  let dir1 := mkPluginDir (qstr "sites/A") None None None true in
  let dir2 := mkPluginDir (qstr "sites/B") None None None true in
  let start := mkProcess None None 0 [] [] in
  engineStatic start = None
  ∧ (jsEngine build dir2 (jsEngine build dir1 start).2).1
    = build (qstr "sites/A/../helper.js").
Proof.
  cbn zeta. split; [reflexivity|].
  match goal with
  | |- context [jsEngine ?b ?d2 (jsEngine ?b ?d1 ?p).2] =>
      destruct (X1_jsEngine_built_once b d1 d2 p) as (Hsame & _ & Hbuilt & _)
  end.
  cbn zeta in Hsame. rewrite Hsame. rewrite Hbuilt by reflexivity.
  vm_compute. reflexivity.
Defined.

(** The branch without error (lines 79-166), in closed form. *)
Lemma readDocument_eq engine jsSource p :
  readDocument engine jsSource p
  = let name := toString (property jsSource (qstr "name")) in
    let entries := ownProperties (property jsSource (qstr "apis")) in
    let apis := List.map (fun entry => JavascriptApi engine jsSource (mutexFor p) entry.1) entries in
    let p1 := if isEmpty entries then p else (jsEngineMutex p).2 in
    let tagFormat := property jsSource (qstr "tagFormat") in
    (mkDocument jsSource name
       (jsToStringList (property jsSource (qstr "tokens")))
       apis
       (if negb (isUndefined tagFormat)
        then mkTagNameFormat
               (default Lower (assoc (toString (property tagFormat (qstr "case"))) caseAssoc))
               (toString (property tagFormat (qstr "wordSeparator")))
        else TagNameFormat_default)
       (readAuths (property jsSource (qstr "auth")) ∅),
     if isEmpty apis
     then (log (qstr "No valid source has been found in the model.js file from "
                  ++ name ++ qstr ".") Info p1).2
     else p1).
Proof.
  unfold readDocument. run_unfold. rewrite readApis_eq. cbn [app].
  by destruct (isEmpty (List.map _ _)).
Qed.

(** The script model (lines 68-172) when model.js can be read, in closed
    form. *)
Lemma readModel_eq buildJsEngine diskName dir content p :
  model_js dir = Some content ->
  readModel buildJsEngine diskName dir p
  = let engine := engineFor buildJsEngine dir p in
    let fileName := readPath dir (qstr "model.js") in
    let jsSource := evaluate engine (wrappedSource content) fileName in
    let p1 := mkProcess (Some engine) (mutexStatic p) (mutexCount p)
                (logged p ++ [(Debug, qstr "Using Javascript model for " ++ diskName)])
                (trace p ++ [EngineEvaluate (wrappedSource content) fileName]) in
    if isError jsSource
    then (mkDocument jsSource [] [] [] TagNameFormat_default ∅,
          (log (qstr "Uncaught exception at line "
                  ++ showZ (toInt (property jsSource (qstr "lineNumber")))
                  ++ qstr ": " ++ toString jsSource) Error p1).2)
    else readDocument engine jsSource p1.
Proof.
  intros Hjs. unfold readModel, engineFor, wrappedSource. rewrite Hjs. run_unfold.
  destruct (engineStatic p) as [engine|] eqn:He;
    cbn [engineStatic mutexStatic mutexCount logged trace fst snd];
    unfold default; cbn [from_option]; unfold id.
  all: match goal with
       | |- context [isError (evaluate ?e ?s ?f)] =>
           destruct (isError (evaluate e s f)) eqn:Herr
       end; reflexivity.
Qed.

(** The script model without model.js. *)
Lemma readModel_missing buildJsEngine diskName dir p :
  model_js dir = None ->
  readModel buildJsEngine diskName dir p
  = (Document_default,
     (log (qstr "Javascript model not found for '" ++ diskName
             ++ qstr "' in '" ++ readPath dir (qstr "model.js") ++ qstr "'") Warning p).2).
Proof. intros Hjs. unfold readModel. by rewrite Hjs. Qed.

Lemma log_fields message level p :
  engineStatic (log message level p).2 = engineStatic p
  ∧ mutexStatic (log message level p).2 = mutexStatic p
  ∧ mutexCount (log message level p).2 = mutexCount p
  ∧ logged (log message level p).2 = logged p ++ [(level, message)]
  ∧ trace (log message level p).2 = trace p.
Proof. done. Qed.

(** What the script model does to the process-wide statics and to the
    log. *)
Lemma readModel_statics buildJsEngine diskName dir p :
  let doc := (readModel buildJsEngine diskName dir p).1 in
  let p' := (readModel buildJsEngine diskName dir p).2 in
  (∀ engine, engineStatic p = Some engine -> engineStatic p' = Some engine)
  ∧ (∀ mutex, mutexStatic p = Some mutex -> mutexStatic p' = Some mutex)
  ∧ Forall (fun api => engineStatic p' = Some (api_engine api)
                       ∧ mutexStatic p' = Some (api_engineMutex api)
                       ∧ api_source api = doc_jsSource doc) (doc_apis doc)
  ∧ (∃ new, logged p' = logged p ++ new)
  ∧ (is_Some (model_js dir) -> engineStatic p' = Some (engineFor buildJsEngine dir p))
  ∧ (model_js dir = None -> engineStatic p' = engineStatic p ∧ mutexStatic p' = mutexStatic p).
Proof.
  cbn zeta. destruct (model_js dir) as [content|] eqn:Hjs.
  - rewrite (readModel_eq _ _ _ content) by done. cbn zeta.
    assert (Hengine : ∀ engine, engineStatic p = Some engine ->
                                engineFor buildJsEngine dir p = engine).
    { intros engine He. unfold engineFor. by rewrite He. }
    destruct (isError _) eqn:Herr.
    + cbn [fst snd doc_apis log engineStatic mutexStatic logged].
      split_and!; try done.
      * intros engine He. by rewrite (Hengine _ He).
      * eexists. by rewrite <- app_assoc.
    + rewrite readDocument_eq. cbn zeta. cbn [fst snd doc_apis doc_jsSource].
      set (engine := engineFor buildJsEngine dir p) in *.
      set (p1 := mkProcess (Some engine) _ _ _ _).
      destruct (jsEngineMutex_eq p1) as (_ & Hm & He & Hl & _).
      destruct (ownProperties _) as [|entry entries]; cbn [List.map isEmpty].
      * cbn [log snd engineStatic mutexStatic logged p1].
        split_and!; try done.
        -- intros e He'. by rewrite <- (Hengine _ He').
        -- eexists. by rewrite <- app_assoc.
      * rewrite Hm, He, Hl. cbn [engineStatic logged p1].
        assert (Hfor : ∀ mutex, mutexStatic p = Some mutex -> mutexFor p1 = mutex).
        { intros mutex Hmutex. unfold mutexFor. cbn [mutexStatic p1]. by rewrite Hmutex. }
        split_and!; try done.
        -- intros e He'. by rewrite <- (Hengine _ He').
        -- intros mutex Hmutex. by rewrite (Hfor _ Hmutex).
        -- constructor; [done|]. apply Forall_forall.
           intros api (entry' & <- & _)%list_elem_of_In%List.in_map_iff. done.
        -- by eexists.
  - rewrite readModel_missing by done. cbn [fst snd Document_default doc_apis].
    split_and!; try done.
    all: try (by exists [(Warning, qstr "Javascript model not found for '" ++ diskName
                            ++ qstr "' in '" ++ readPath dir (qstr "model.js") ++ qstr "'")]).
    all: try (by intros [? ?]).
Qed.

(** The same, for the whole constructor. *)
Lemma Source_new_statics buildJsEngine nightly profile dir p :
  let s := (Source_new buildJsEngine nightly profile dir p).1 in
  let p' := (Source_new buildJsEngine nightly profile dir p).2 in
  (∀ engine, engineStatic p = Some engine -> engineStatic p' = Some engine)
  ∧ (∀ mutex, mutexStatic p = Some mutex -> mutexStatic p' = Some mutex)
  ∧ Forall (fun api => engineStatic p' = Some (api_engine api)
                       ∧ mutexStatic p' = Some (api_engineMutex api)
                       ∧ api_source api = m_jsSource s) (m_apis s)
  ∧ (∃ new, logged p' = logged p ++ new)
  ∧ (is_Some (model_js dir) -> engineStatic p' = Some (engineFor buildJsEngine dir p))
  ∧ (model_js dir = None -> engineStatic p' = engineStatic p ∧ mutexStatic p' = mutexStatic p).
Proof.
  rewrite Source_new_unfold. cbn zeta. cbn [fst snd m_apis m_jsSource].
  destruct (readModel_statics buildJsEngine (fileName (dir_path dir)) dir p)
    as (He & Hm & Hapis & (new & Hlog) & Hsome & Hnone).
  set (p1 := (readModel buildJsEngine (fileName (dir_path dir)) dir p).2) in *.
  match goal with
  | |- context [if ?b then (log ?msg Debug p1).2 else p1] =>
      set (p2 := if b then (log msg Debug p1).2 else p1);
      assert (Hp2 : engineStatic p2 = engineStatic p1 ∧ mutexStatic p2 = mutexStatic p1
                    ∧ ∃ more, logged p2 = logged p1 ++ more)
        by (unfold p2; destruct b; [split_and!; [done..|by eexists]
                                   |split_and!; [done..|exists []; by rewrite app_nil_r]])
  end.
  destruct Hp2 as (-> & -> & more & ->).
  split_and!; try done.
  exists (new ++ more). by rewrite Hlog, app_assoc.
Qed.

(** X2. The engine and the mutex are process-wide: whatever Sources are
    constructed one after the other, for whatever directories, all their
    Apis hold one and the same engine and one and the same mutex. *)
Theorem X2_sources_share_engine_and_mutex
    (buildJsEngine : list N -> QJSEngine) (nightly : bool)
    (profile1 profile2 : nat) (dir1 dir2 : PluginDir) (p : Process) :
  let first := Source_new buildJsEngine nightly profile1 dir1 p in
  let second := Source_new buildJsEngine nightly profile2 dir2 first.2 in
  ∀ api1 api2,
    api1 ∈ m_apis first.1 -> api2 ∈ m_apis second.1 ->
    api_engineMutex api1 = api_engineMutex api2
    ∧ api_engine api1 = api_engine api2.
Proof.
  intros first second api1 api2 H1 H2.
  destruct (Source_new_statics buildJsEngine nightly profile1 dir1 p)
    as (_ & _ & Hall1 & _).
  destruct (Source_new_statics buildJsEngine nightly profile2 dir2 first.2)
    as (He & Hm & Hall2 & _).
  fold first in Hall1. fold second in Hall2.
  rewrite Forall_forall in Hall1, Hall2.
  destruct (Hall1 _ H1) as (He1 & Hm1 & _). destruct (Hall2 _ H2) as (He2 & Hm2 & _).
  apply He in He1. apply Hm in Hm1. fold second in He1, Hm1.
  split; congruence.
Qed.

(* ===================================================================== *)
(** ** Further properties: what the constructor reads from the document *)
(* ===================================================================== *)

(** The members of a Source whose document evaluated without error. *)
Lemma Source_new_document buildJsEngine nightly profile dir content p :
  model_js dir = Some content ->
  let jsSource := evaluate (engineFor buildJsEngine dir p) (wrappedSource content)
                    (readPath dir (qstr "model.js")) in
  isError jsSource = false ->
  let s := (Source_new buildJsEngine nightly profile dir p).1 in
  m_jsSource s = jsSource
  ∧ m_name s = toString (property jsSource (qstr "name"))
  ∧ m_additionalTokens s = jsToStringList (property jsSource (qstr "tokens"))
  ∧ m_apis s = List.map (fun entry => JavascriptApi (engineFor buildJsEngine dir p)
                                        jsSource (mutexFor p) entry.1)
                 (ownProperties (property jsSource (qstr "apis")))
  ∧ m_tagNameFormat s
    = (let tagFormat := property jsSource (qstr "tagFormat") in
       if negb (isUndefined tagFormat)
       then mkTagNameFormat
              (default Lower (assoc (toString (property tagFormat (qstr "case"))) caseAssoc))
              (toString (property tagFormat (qstr "wordSeparator")))
       else TagNameFormat_default)
  ∧ m_auths s = readAuths (property jsSource (qstr "auth")) ∅.
Proof.
  intros Hjs jsSource Herr. rewrite Source_new_unfold. cbn zeta.
  cbn [fst m_jsSource m_name m_additionalTokens m_apis m_tagNameFormat m_auths].
  rewrite (readModel_eq _ _ _ content) by done. cbn zeta. fold jsSource. rewrite Herr.
  rewrite readDocument_eq. cbn zeta.
  cbn [fst doc_jsSource doc_name doc_additionalTokens doc_apis doc_tagNameFormat doc_auths].
  by split_and!.
Qed.

(** The process after the construction of a Source without model.js. *)
Lemma Source_new_missing buildJsEngine nightly profile dir p :
  model_js dir = None ->
  let s := (Source_new buildJsEngine nightly profile dir p).1 in
  let p' := (Source_new buildJsEngine nightly profile dir p).2 in
  m_jsSource s = JSUndefined ∧ m_name s = [] ∧ m_additionalTokens s = []
  ∧ m_apis s = [] ∧ m_tagNameFormat s = TagNameFormat_default ∧ m_auths s = ∅
  ∧ trace p' = trace p
  ∧ ∃ rest,
      logged p'
      = logged p
          ++ (Warning, qstr "Javascript model not found for '" ++ fileName (dir_path dir)
                         ++ qstr "' in '" ++ readPath dir (qstr "model.js") ++ qstr "'")
          :: rest.
Proof.
  intros Hjs. rewrite Source_new_unfold. cbn zeta.
  cbn [fst snd m_jsSource m_name m_additionalTokens m_apis m_tagNameFormat m_auths].
  rewrite readModel_missing by done. cbn [fst snd Document_default doc_jsSource doc_name
    doc_additionalTokens doc_apis doc_tagNameFormat doc_auths].
  split_and!; try done.
  - by destruct (isEmpty _).
  - destruct (isEmpty _); cbn [log snd logged]; [|by eexists].
    rewrite <- app_assoc. by eexists.
Qed.

(* ===================================================================== *)
(** ** The scheme map of a Source *)
(* ===================================================================== *)

(** The store itself is [QMap::insert]: used twice under one scheme id,
    it keeps the second strategy.  The loop never does so, see below. *)
Remark storeAuth_twice (id : list N) (a b : Auth) (m : gmap (list N) Auth) :
  storeAuth id (Some b) (storeAuth id (Some a) m) !! id = Some b.
Proof. cbn [storeAuth]. apply lookup_insert_eq. Qed.






(* ===================================================================== *)
(** ** Further properties: Sources with and without a document *)
(* ===================================================================== *)

(** X3. A directory without model.js gives an empty Source: no name, no
    tokens, no apis, no auths, the default tag format; a warning is
    logged, and the script runtime is left alone: no engine is built, no
    mutex is created, nothing is evaluated. *)
Theorem X3_missing_model_gives_empty_source_and_no_engine
    (buildJsEngine : list N -> QJSEngine) (nightly : bool) (profile : nat)
    (dir : PluginDir) (p : Process) :
  model_js dir = None ->
  let s := (Source_new buildJsEngine nightly profile dir p).1 in
  let p' := (Source_new buildJsEngine nightly profile dir p).2 in
  m_name s = [] ∧ m_additionalTokens s = [] ∧ m_apis s = [] ∧ m_auths s = ∅
  ∧ m_tagNameFormat s = mkTagNameFormat Lower []
  ∧ engineStatic p' = engineStatic p
  ∧ mutexStatic p' = mutexStatic p
  ∧ trace p' = trace p
  ∧ ∃ message, (Warning, message) ∈ logged p'.
Proof.
  intros Hjs s p'.
  destruct (Source_new_missing buildJsEngine nightly profile dir p Hjs)
    as (_ & Hn & Ht & Ha & Hf & Hm & Htrace & rest & Hlog).
  destruct (Source_new_statics buildJsEngine nightly profile dir p)
    as (_ & _ & _ & _ & _ & Hnone).
  destruct (Hnone Hjs) as [He Hmu].
  split_and!; try done.
  eexists. unfold p'. rewrite Hlog, elem_of_app, elem_of_cons. right. by left.
Qed.

(** X4. A document that evaluates without error but has no apis still
    gives a Source with its name; the log gets an informational entry
    that names it, and no mutex is created. *)
Theorem X4_document_without_apis
    (buildJsEngine : list N -> QJSEngine) (nightly : bool) (profile : nat)
    (dir : PluginDir) (content : list N) (p : Process) :
  model_js dir = Some content ->
  let jsSource := evaluate (engineFor buildJsEngine dir p) (wrappedSource content)
                    (readPath dir (qstr "model.js")) in
  isError jsSource = false ->
  ownProperties (property jsSource (qstr "apis")) = [] ->
  let s := (Source_new buildJsEngine nightly profile dir p).1 in
  let p' := (Source_new buildJsEngine nightly profile dir p).2 in
  m_name s = toString (property jsSource (qstr "name"))
  ∧ m_apis s = []
  ∧ mutexStatic p' = mutexStatic p
  ∧ (Info, qstr "No valid source has been found in the model.js file from "
             ++ m_name s ++ qstr ".") ∈ logged p'.
Proof.
  intros Hjs jsSource Herr Hapis s p'.
  destruct (Source_new_document buildJsEngine nightly profile dir content p Hjs Herr)
    as (_ & Hname & _ & Hlist & _).
  fold jsSource in Hname, Hlist. fold s in Hname, Hlist.
  rewrite Hapis in Hlist. cbn in Hlist.
  split; [done|]. split; [done|].
  unfold p'. rewrite Source_new_unfold. cbn zeta. cbn [snd].
  rewrite (readModel_eq _ _ _ content) by done. cbn zeta. fold jsSource. rewrite Herr.
  rewrite readDocument_eq. cbn zeta. rewrite Hapis. cbn [List.map isEmpty fst snd doc_name].
  rewrite Hname.
  destruct (isEmpty _); cbn [log snd mutexStatic logged]; (split; [done|]);
    rewrite !elem_of_app, !elem_of_cons; naive_solver.
Qed.

(** X5. A document that evaluates without error gives one Api per own
    property of [apis], in the order of enumeration and under the name
    of the property; all hold the evaluated document. *)
Theorem X5_one_api_per_key_in_order
    (buildJsEngine : list N -> QJSEngine) (nightly : bool) (profile : nat)
    (dir : PluginDir) (content : list N) (p : Process) :
  model_js dir = Some content ->
  let jsSource := evaluate (engineFor buildJsEngine dir p) (wrappedSource content)
                    (readPath dir (qstr "model.js")) in
  isError jsSource = false ->
  let s := (Source_new buildJsEngine nightly profile dir p).1 in
  List.map api_key (m_apis s) = List.map fst (ownProperties (property jsSource (qstr "apis")))
  ∧ Forall (fun api => api_source api = jsSource) (m_apis s)
  ∧ (isObject (property jsSource (qstr "apis")) = false -> m_apis s = []).
Proof.
  intros Hjs jsSource Herr s.
  destruct (Source_new_document buildJsEngine nightly profile dir content p Hjs Herr)
    as (_ & _ & _ & Hlist & _).
  fold jsSource in Hlist. fold s in Hlist. rewrite Hlist. split_and!.
  - rewrite List.map_map. by apply List.map_ext.
  - apply Forall_forall. by intros api (entry & <- & _)%list_elem_of_In%List.in_map_iff.
  - intros Hobj. by destruct (property jsSource (qstr "apis")).
Qed.

(** The table [caseAssoc], read with [Lower] as the default. *)
Lemma caseAssoc_value (c : list N) :
  let format := default Lower (assoc c caseAssoc) in
  (format = UpperFirst ↔ c = qstr "upper_first")
  ∧ (format = Upper ↔ c = qstr "upper")
  ∧ (format = Caps ↔ c = qstr "caps")
  ∧ (format = Lower ↔ c ∉ [qstr "upper_first"; qstr "upper"; qstr "caps"]).
Proof.
  cbn zeta. rewrite !not_elem_of_cons.
  destruct (decide (c = qstr "lower")) as [->|H1].
  { change (default Lower (assoc (qstr "lower") caseAssoc)) with Lower.
    split_and!; split; intros H; try done; try closed_false H.
    split_and!; try apply not_elem_of_nil; intros H'; closed_false H'. }
  destruct (decide (c = qstr "upper_first")) as [->|H2].
  { change (default Lower (assoc (qstr "upper_first") caseAssoc)) with UpperFirst.
    split_and!; split; intros H; try done; try closed_false H. }
  destruct (decide (c = qstr "upper")) as [->|H3].
  { change (default Lower (assoc (qstr "upper") caseAssoc)) with Upper.
    split_and!; split; intros H; try done; try closed_false H. }
  destruct (decide (c = qstr "caps")) as [->|H4].
  { change (default Lower (assoc (qstr "caps") caseAssoc)) with Caps.
    split_and!; split; intros H; try done; try closed_false H. }
  unfold caseAssoc. cbn [assoc].
  rewrite !bool_decide_eq_false_2 by done. cbn.
  split_and!; split; intros H; try done.
  split_and!; try done. apply not_elem_of_nil.
Qed.

(** X6. The tag format of a document that evaluates without error: the
    default (lower case, empty separator) when [tagFormat] is absent;
    otherwise the case is the one named by [case], lower case for any
    other text, and the separator is the text of [wordSeparator], which
    for an absent property is "undefined". *)
Theorem X6_tag_format
    (buildJsEngine : list N -> QJSEngine) (nightly : bool) (profile : nat)
    (dir : PluginDir) (content : list N) (p : Process) :
  model_js dir = Some content ->
  let jsSource := evaluate (engineFor buildJsEngine dir p) (wrappedSource content)
                    (readPath dir (qstr "model.js")) in
  isError jsSource = false ->
  let s := (Source_new buildJsEngine nightly profile dir p).1 in
  let tagFormat := property jsSource (qstr "tagFormat") in
  let caseName := toString (property tagFormat (qstr "case")) in
  (isUndefined tagFormat = true -> m_tagNameFormat s = mkTagNameFormat Lower [])
  ∧ (isUndefined tagFormat = false ->
       wordSeparator (m_tagNameFormat s) = toString (property tagFormat (qstr "wordSeparator"))
       ∧ (isUndefined (property tagFormat (qstr "wordSeparator")) = true ->
            wordSeparator (m_tagNameFormat s) = qstr "undefined")
       ∧ (caseFormat (m_tagNameFormat s) = UpperFirst ↔ caseName = qstr "upper_first")
       ∧ (caseFormat (m_tagNameFormat s) = Upper ↔ caseName = qstr "upper")
       ∧ (caseFormat (m_tagNameFormat s) = Caps ↔ caseName = qstr "caps")
       ∧ (caseFormat (m_tagNameFormat s) = Lower ↔
            caseName ∉ [qstr "upper_first"; qstr "upper"; qstr "caps"])).
Proof.
  intros Hjs jsSource Herr s tagFormat caseName.
  destruct (Source_new_document buildJsEngine nightly profile dir content p Hjs Herr)
    as (_ & _ & _ & _ & Hformat & _).
  fold jsSource in Hformat. fold s in Hformat. cbn zeta in Hformat.
  fold tagFormat in Hformat. fold caseName in Hformat. rewrite Hformat.
  split; [by intros ->|]. intros ->. cbn [negb caseFormat wordSeparator].
  split; [done|]. split.
  { intros Hu. by rewrite (isUndefined_inv _ Hu). }
  apply caseAssoc_value.
Qed.

(* ===================================================================== *)
(** ** Further properties: the builders *)
(* ===================================================================== *)

(** Every strategy carries the type text of its description. *)
Lemma buildAuth_type auth a :
  buildAuth auth = Some a -> auth_type a = toString (property auth (qstr "type")).
Proof.
  unfold buildAuth. intros H.
  repeat case_match; by simplify_eq.
Qed.

Lemma assoc_Some_elem {A} id (l : list (list N * A)) v :
  assoc id l = Some v -> (id, v) ∈ l.
Proof.
  induction l as [|[k w] l IH]; [done|]. cbn [assoc].
  case_bool_decide as Hk.
  - intros [= <-]. subst k. by left.
  - intros H. right. by apply IH.
Qed.

Lemma assoc_is_Some {A} id (l : list (list N * A)) :
  is_Some (assoc id l) ↔ id ∈ List.map fst l.
Proof.
  induction l as [|[k w] l IH]; cbn [assoc List.map fst].
  - split; [by intros [? ?]|by intros ?%elem_of_nil].
  - rewrite elem_of_cons. case_bool_decide as Hk.
    + split; [by left|by eexists].
    + rewrite IH. naive_solver.
Qed.

(** X7. Every scheme of the document is stored: the scheme ids of
    [m_auths] are exactly the property names of [auth]; the strategy
    under an id was built from a description the document has under that
    id and carries its type text.  When [auth] is not an object (absent,
    for one) there are no schemes at all. *)
Theorem X7_every_scheme_is_stored (auths : QJSValue) (id : list N) :
  (is_Some (readAuths auths ∅ !! id) ↔ id ∈ List.map fst (ownProperties auths))
  ∧ (∀ a, readAuths auths ∅ !! id = Some a ->
       ∃ node, (id, node) ∈ ownProperties auths
               ∧ buildAuth node = Some a
               ∧ auth_type a = toString (property node (qstr "type")))
  ∧ (isObject auths = false -> readAuths auths ∅ = ∅).
Proof.
  unfold readAuths. rewrite readAuths_entries_lookup. split_and!.
  - rewrite <- (assoc_is_Some id (ownProperties auths)).
    assert (Hrev : is_Some (assoc id (rev (ownProperties auths)))
                   ↔ is_Some (assoc id (ownProperties auths))).
    { rewrite !assoc_is_Some, List.map_rev, !list_elem_of_In. symmetry. apply List.in_rev. }
    rewrite <- Hrev.
    destruct (assoc id (rev (ownProperties auths))) as [node|].
    + split; [by eexists|]. intros _. apply buildAuth_is_Some.
    + rewrite lookup_empty. split; by intros [? ?].
  - intros a Ha.
    destruct (assoc id (rev (ownProperties auths))) as [node|] eqn:Hnode;
      [|by rewrite lookup_empty in Ha].
    exists node. split_and!; [|done|by apply buildAuth_type].
    apply assoc_Some_elem in Hnode.
    by apply list_elem_of_In, List.in_rev, list_elem_of_In.
  - intros Hobj. by destruct auths.
Qed.

Lemma toInt_range v : inIntRange (toInt v).
Proof.
  unfold toInt, inIntRange. destruct (toNumber v) as [n|]; [|lia].
  pose proof (Z.mod_pos_bound (n + 2 ^ 31) (2 ^ 32)). lia.
Qed.

(** X8. The page cap of an [HttpBasicAuth] or [UrlAuth] always fits a
    C++ [int]; it is 0 unless the description has a [check] object of
    type "max_page", and then it is the integer value of [check.value]. *)
Theorem X8_page_cap (auth : QJSValue) (a : Auth) (maxPage : Z) :
  buildAuth auth = Some a ->
  auth_maxPage a = Some maxPage ->
  let check := property auth (qstr "check") in
  inIntRange maxPage
  ∧ (isObject check = true ∧ toString (property check (qstr "type")) = qstr "max_page" ->
       maxPage = toInt (property check (qstr "value")))
  ∧ (isObject check = false ∨ toString (property check (qstr "type")) ≠ qstr "max_page" ->
       maxPage = 0%Z).
Proof.
  intros Ha Hmax check. unfold buildAuth in Ha. cbv zeta in Ha. fold check in Ha.
  assert (Hzero : inIntRange 0) by (unfold inIntRange; lia).
  pose proof (toInt_range (property check (qstr "value"))) as Hvalue.
  destruct (isObject check) eqn:Hobj.
  - repeat case_bool_decide; cbn [orb] in Ha; simplify_eq; cbn in Hmax; simplify_eq;
      split_and!; try done; try (by intros [_ ?]); try (by intros [?|?]).
  - assert (Hempty : bool_decide (@nil N = qstr "max_page") = false) by reflexivity.
    rewrite Hempty in Ha.
    repeat case_bool_decide; cbn [orb] in Ha; simplify_eq; cbn in Hmax; simplify_eq;
      split_and!; try done; try (by intros [? _]).
Qed.

Lemma property_scalar v name : isObject v = false -> property v name = JSUndefined.
Proof. by destruct v. Qed.

Lemma propertyAt_scalar v i : isObject v = false -> propertyAt v i = JSUndefined.
Proof. by destruct v. Qed.

(** X9. A description of type "get" or "post" gives an [HttpAuth] with
    the login URL and the fields of the description.  The cookie name is
    the text of [check.key] for a [check] object of type "cookie" and
    empty in every other case; the redirect URL is the text of
    [check.url] for a [check] object of type "redirect" and empty in
    every other case; so at most one of the two is set.  The csrf URL and
    fields are those of the [csrf] object, and empty without one. *)
Theorem X9_http_auth (auth : QJSValue) :
  let type := toString (property auth (qstr "type")) in
  let check := property auth (qstr "check") in
  let csrf := property auth (qstr "csrf") in
  type = qstr "get" ∨ type = qstr "post" ->
  ∃ cookie redirectUrl csrfUrl csrfFields,
    buildAuth auth
    = Some (HttpAuth type (toString (property auth (qstr "url")))
              (buildFields (property auth (qstr "fields")))
              cookie redirectUrl csrfUrl csrfFields)
    ∧ (cookie = [] ∨ redirectUrl = [])
    ∧ (isObject check = true -> toString (property check (qstr "type")) = qstr "cookie" ->
         cookie = toString (property check (qstr "key")))
    ∧ (isObject check = true -> toString (property check (qstr "type")) = qstr "redirect" ->
         redirectUrl = toString (property check (qstr "url")))
    ∧ (isObject check = false -> cookie = [] ∧ redirectUrl = [])
    ∧ (toString (property check (qstr "type")) ≠ qstr "cookie" -> cookie = [])
    ∧ (toString (property check (qstr "type")) ≠ qstr "redirect" -> redirectUrl = [])
    ∧ (isObject csrf = true ->
         csrfUrl = toString (property csrf (qstr "url"))
         ∧ csrfFields = jsToStringList (property csrf (qstr "fields")))
    ∧ (isObject csrf = false -> csrfUrl = [] ∧ csrfFields = []).
Proof.
  intros type check csrf Htype. unfold buildAuth. fold type check csrf.
  assert (Hbranch : bool_decide (type = qstr "oauth2") = false
                    ∧ bool_decide (type = qstr "oauth1") = false
                    ∧ bool_decide (type = qstr "http_basic") = false
                    ∧ bool_decide (type = qstr "get") || bool_decide (type = qstr "post") = true).
  { destruct Htype as [-> | ->]; by vm_compute. }
  destruct Hbranch as (-> & -> & -> & ->).
  do 4 eexists. split; [reflexivity|].
  destruct (isObject check), (isObject csrf); repeat case_bool_decide;
    split_and!; try done; try (by left); try (by right); try congruence.
  all: match goal with
       | H1 : ?x = qstr "cookie", H2 : ?x = qstr "redirect" |- _ =>
           rewrite H1 in H2; closed_false H2
       end.
Qed.


(** X11. Malformed descriptions never fail the load; they degrade to
    defaults: a field description that is not an object gives an empty
    text field, a [fields] value that is not an object gives no fields,
    and a scheme description that is not an object gives a [UrlAuth] of
    type "undefined" without fields or page cap. *)
Theorem X11_malformed_descriptions_degrade (v : QJSValue) :
  isObject v = false ->
  buildField v = AuthPlainField [] [] Text []
  ∧ buildFields v = []
  ∧ buildAuth v = Some (UrlAuth (qstr "undefined") [] 0).
Proof.
  intros Hv.
  assert (Hfield : buildField v = AuthPlainField [] [] Text []).
  { unfold buildField, stringOrEmpty. rewrite !(property_scalar v) by done. by vm_compute. }
  assert (Hfields : ∀ w, isObject w = false -> buildFields w = []).
  { intros w Hw. unfold buildFields. rewrite (property_scalar w) by done. by vm_compute. }
  split; [done|]. split; [by apply Hfields|].
  unfold buildAuth. rewrite !(property_scalar v) by done.
  rewrite (Hfields JSUndefined) by done. by vm_compute.
Qed.

(* ===================================================================== *)
(** ** Further properties: the endpoint list store *)
(* ===================================================================== *)

(** X12. [addSite] and [removeSite] succeed exactly when sites.txt can be
    read and written; when they fail the directory is left as it was,
    and in every case only sites.txt can change. *)
Theorem X12_store_success_and_failure (site : Site) (dir : PluginDir) :
  ((addSite site dir).1 = true ↔ is_Some (sites_txt dir) ∧ sites_txt_writable dir = true)
  ∧ ((removeSite site dir).1 = true ↔ is_Some (sites_txt dir) ∧ sites_txt_writable dir = true)
  ∧ ((addSite site dir).1 = false -> (addSite site dir).2 = dir)
  ∧ ((removeSite site dir).1 = false -> (removeSite site dir).2 = dir)
  ∧ (∀ dir', dir' = (addSite site dir).2 ∨ dir' = (removeSite site dir).2 ->
       dir_path dir' = dir_path dir ∧ model_js dir' = model_js dir
       ∧ supported_txt dir' = supported_txt dir
       ∧ sites_txt_writable dir' = sites_txt_writable dir).
Proof.
  unfold addSite, removeSite, writeFile.
  destruct (sites_txt dir) as [raw|] eqn:Hraw, (sites_txt_writable dir) eqn:Hw;
    cbn [fst snd]; split_and!; try done.
  all: try (split; [by intros _; split; [eexists|]|done]).
  all: try (split; [done|by intros [[? ?] ?]]).
  all: try (split; [done|by intros [_ ?]]).
  all: by intros dir' [-> | ->]; cbn.
Qed.

Lemma sort_singleton (u : list N) : sort [u] = [u].
Proof. reflexivity. Qed.

(** X13. Adding a URL when sites.txt holds no entry (it is empty, or has
    blank lines only) leaves a file that is exactly the URL in Latin-1,
    without line terminator; removing a URL when every entry is that URL
    leaves an empty file. *)
Theorem X13_single_entry_files (site : Site) (dir : PluginDir) (raw : list N) :
  sites_txt dir = Some raw ->
  sites_txt_writable dir = true ->
  (parseSites raw = [] -> sites_txt (addSite site dir).2 = Some (toLatin1 (url site)))
  ∧ ((∀ entry, entry ∈ parseSites raw -> entry = url site) ->
       sites_txt (removeSite site dir).2 = Some []).
Proof.
  intros Hraw Hw. split.
  - intros Hempty. rewrite (addSite_writes site dir raw) by done. cbn [snd sites_txt].
    rewrite Hempty. cbn [app]. unfold removeDuplicates. cbn [removeDuplicates_from].
    rewrite bool_decide_eq_false_2 by apply not_elem_of_nil.
    by rewrite sort_singleton.
  - intros Hall. rewrite (removeSite_writes site dir raw) by done. cbn [snd sites_txt].
    assert (Hnone : removeAll (url site) (parseSites raw) = []).
    { destruct (removeAll _ _) as [|x l] eqn:Hl; [done|].
      assert (Hx : x ∈ removeAll (url site) (parseSites raw)) by (rewrite Hl; by left).
      apply elem_of_removeAll in Hx as [Hin Hne]. by destruct Hne, (Hall x Hin). }
    by rewrite Hnone.
Qed.

Lemma removeAll_Sorted u l : Sorted QString_le l -> Sorted QString_le (removeAll u l).
Proof.
  intros Hl. apply StronglySorted_Sorted, StronglySorted_filter.
  apply Sorted_StronglySorted; [|done]. intros a b c. apply QString_le_trans.
Qed.

Lemma removeAll_NoDup u l : NoDup l -> NoDup (removeAll u l).
Proof. intros Hl. by apply NoDup_ListNoDup, List.NoDup_filter, NoDup_ListNoDup. Qed.

Lemma removeAll_sublist u l : removeAll u l `sublist_of` l.
Proof.
  unfold removeAll. induction l as [|x l IH]; [done|]. cbn [List.filter].
  destruct (negb _); by constructor.
Qed.

Lemma removeAll_removeAll u l : removeAll u (removeAll u l) = removeAll u l.
Proof. apply removeAll_absent. rewrite elem_of_removeAll. naive_solver. Qed.

(** What [addSite] leaves on the disk, read back. *)
Lemma added_list_on_disk u raw :
  asciiText raw -> lineText u ->
  let sites := sort (removeDuplicates (parseSites raw ++ [u])) in
  asciiText (toLatin1 (join [CR; LF] sites))
  ∧ parseSites (toLatin1 (join [CR; LF] sites))
    = List.filter (fun p => negb (isEmpty p)) sites
  ∧ Forall lineText sites.
Proof.
  intros Hascii Hu sites.
  pose proof (parseSites_entries raw Hascii) as Hl0.
  destruct (added_list_spec (parseSites raw) u) as (_ & _ & Hin). fold sites in Hin.
  assert (Hlines : Forall lineText sites).
  { apply Forall_forall. intros x [Hx| ->]%Hin; [|done].
    rewrite Forall_forall in Hl0. by apply Hl0. }
  split_and!; [|by apply parseSites_written|done].
  rewrite toLatin1_ascii.
  all: apply join_asciiText; [repeat constructor; unfold CR, LF; lia|].
  all: eapply Forall_impl; [exact Hlines|]; apply lineText_asciiText.
Qed.

(** X14. Additions commute: adding two URLs in either order leaves the
    same file.  The file is plain ASCII text and the URLs are non-empty
    one-line ASCII texts. *)
Theorem X14_additions_commute (site1 site2 : Site) (dir : PluginDir) (raw : list N) :
  sites_txt dir = Some raw ->
  sites_txt_writable dir = true ->
  asciiText raw ->
  lineText (url site1) -> url site1 ≠ [] ->
  lineText (url site2) -> url site2 ≠ [] ->
  addSite site2 (addSite site1 dir).2 = addSite site1 (addSite site2 dir).2.
Proof.
  intros Hraw Hw Hascii H1 Hne1 H2 Hne2.
  rewrite (addSite_writes site1 dir raw), (addSite_writes site2 dir raw) by done.
  cbn [snd]. erewrite !addSite_writes; [|reflexivity..].
  cbn [dir_path model_js supported_txt].
  destruct (added_list_on_disk (url site1) raw Hascii H1) as (_ & -> & _).
  destruct (added_list_on_disk (url site2) raw Hascii H2) as (_ & -> & _).
  destruct (added_list_spec (parseSites raw) (url site1)) as (_ & _ & Hin1).
  destruct (added_list_spec (parseSites raw) (url site2)) as (_ & _ & Hin2).
  set (a := List.filter _ (sort (removeDuplicates (parseSites raw ++ [url site1])))).
  set (b := List.filter _ (sort (removeDuplicates (parseSites raw ++ [url site2])))).
  assert (Heq : sort (removeDuplicates (a ++ [url site2]))
                = sort (removeDuplicates (b ++ [url site1]))); [|by rewrite Heq].
  destruct (added_list_spec a (url site2)) as (Hs12 & Hn12 & Hin12).
  destruct (added_list_spec b (url site1)) as (Hs21 & Hn21 & Hin21).
  apply (Sorted_unique QString_le); [done..|].
  apply NoDup_Permutation; [done..|].
  intros x. unfold a, b in *. rewrite Hin12, Hin21, !elem_of_filter_nonEmpty, Hin1, Hin2.
  clear -Hne1 Hne2.
  split; (intros [[[Hx| ->] Hnz]| ->]; [left; split; [by left|done] | by right | ]);
    left; (split; [by right|done]).
Qed.

Lemma filter_removeAll x u l :
  x ≠ u ->
  List.filter (fun y => bool_decide (y = x)) (removeAll u l)
  = List.filter (fun y => bool_decide (y = x)) l.
Proof.
  intros Hne. unfold removeAll. induction l as [|y l IH]; [done|].
  cbn [List.filter]. case_bool_decide as Hu; cbn [negb List.filter].
  - subst y. by rewrite bool_decide_eq_false_2 by done.
  - rewrite IH. done.
Qed.

(** X15. A removal writes the entries read that differ from the URL, and
    nothing else: in the order of the file (nothing is sorted) and each
    as many times as the file has it (repeated entries stay repeated).
    Removing twice leaves what removing once leaves; for this the file is
    plain ASCII text. *)
Theorem X15_removal_keeps_order_and_is_idempotent
    (site : Site) (dir : PluginDir) (raw : list N) :
  sites_txt dir = Some raw ->
  sites_txt_writable dir = true ->
  (∃ kept, sites_txt (removeSite site dir).2 = Some (toLatin1 (join [CR; LF] kept))
           ∧ kept = List.filter (fun entry => bool_decide (entry ≠ url site)) (parseSites raw)
           ∧ kept `sublist_of` parseSites raw
           ∧ (∀ x, x ∈ kept ↔ x ∈ parseSites raw ∧ x ≠ url site)
           ∧ (∀ x, x ≠ url site ->
                List.filter (fun entry => bool_decide (entry = x)) kept
                = List.filter (fun entry => bool_decide (entry = x)) (parseSites raw)))
  ∧ (asciiText raw ->
       removeSite site (removeSite site dir).2 = removeSite site dir).
Proof.
  intros Hraw Hw. rewrite (removeSite_writes site dir raw) by done. cbn [snd sites_txt].
  split.
  - exists (removeAll (url site) (parseSites raw)). split_and!.
    + done.
    + unfold removeAll. apply List.filter_ext. intros x. by repeat case_bool_decide.
    + apply removeAll_sublist.
    + intros x. apply elem_of_removeAll.
    + intros x Hx. by apply filter_removeAll.
  - intros Hascii. erewrite removeSite_writes; [|reflexivity..].
    cbn [dir_path model_js supported_txt].
    by rewrite removed_list_on_disk, removeAll_removeAll.
Qed.

(** X16. Adding a URL that is not in the list and removing it again does
    not give back the file as it was: it leaves the old entries sorted
    and without duplicates.  The file is plain ASCII text and the URL a
    non-empty one-line ASCII text. *)
Theorem X16_add_then_remove_normalizes
    (site : Site) (dir : PluginDir) (raw : list N) :
  sites_txt dir = Some raw ->
  sites_txt_writable dir = true ->
  asciiText raw ->
  lineText (url site) -> url site ≠ [] ->
  url site ∉ parseSites raw ->
  sitesOnDisk (removeSite site (addSite site dir).2).2
  = Some (sort (removeDuplicates (parseSites raw))).
Proof.
  intros Hraw Hw Hascii Hline Hne Hfresh.
  rewrite (addSite_writes site dir raw) by done. cbn [snd].
  erewrite removeSite_writes; [|reflexivity..]. cbn [snd]. unfold sitesOnDisk.
  cbn [sites_txt fmap option_fmap option_map]. f_equal.
  destruct (added_list_on_disk (url site) raw Hascii Hline) as (Hfile & Hback & _).
  rewrite removed_list_on_disk by done. rewrite Hback.
  destruct (added_list_spec (parseSites raw) (url site)) as (Hsorted & Hnodup & Hin).
  pose proof (parseSites_entries raw Hascii) as Hl0. rewrite Forall_forall in Hl0.
  apply (Sorted_unique QString_le).
  - by apply removeAll_Sorted, Sorted_filter_nonEmpty.
  - apply sort_Sorted.
  - apply NoDup_Permutation.
    + by apply removeAll_NoDup, NoDup_ListNoDup, List.NoDup_filter, NoDup_ListNoDup.
    + rewrite sort_Permutation. apply removeDuplicates_NoDup.
    + intros x. rewrite elem_of_removeAll, elem_of_filter_nonEmpty, Hin,
        elem_of_sort, elem_of_removeDuplicates.
      split; [by intros [[[Hx| ->] _] Hne']|].
      intros Hx. split; [split; [by left|by apply Hl0]|]. by intros ->.
Qed.

(* ===================================================================== *)
(** ** Further properties: the store and the constructor together *)
(* ===================================================================== *)

Lemma trimLeft_snoc_space s c :
  ascii_isspace c = true ->
  trimLeft (s ++ [c]) = match trimLeft s with [] => [] | _ => trimLeft s ++ [c] end.
Proof.
  intros Hc. induction s as [|x s IH]; cbn [app trimLeft].
  - by rewrite Hc.
  - destruct (ascii_isspace x); [exact IH|done].
Qed.

Lemma trimmed_snoc_space s c : ascii_isspace c = true -> trimmed (s ++ [c]) = trimmed s.
Proof.
  intros Hc. unfold trimmed. rewrite trimLeft_snoc_space by done.
  destruct (trimLeft s) as [|x t] eqn:Ht; [done|].
  rewrite rev_app_distr. cbn [rev app trimLeft]. by rewrite Hc.
Qed.

Lemma readLines_app_LF s rest :
  LF ∉ s -> readLines (s ++ LF :: rest) = (s ++ [LF]) :: readLines rest.
Proof.
  induction s as [|x s IH]; cbn [app readLines].
  - intros _. by rewrite N.eqb_refl.
  - rewrite not_elem_of_cons. intros [Hx Hs].
    destruct (N.eqb_spec x LF); [congruence|]. by rewrite IH.
Qed.

Lemma readLines_no_LF s : LF ∉ s -> s ≠ [] -> readLines s = [s].
Proof.
  induction s as [|x s IH]; [done|]. rewrite not_elem_of_cons. intros [Hx Hs] _.
  cbn [readLines]. destruct (N.eqb_spec x LF); [congruence|].
  destruct s as [|y s]; [done|]. by rewrite IH.
Qed.

Lemma textLine_CRLF s : textLine (s ++ [CR; LF]) = s ++ [LF].
Proof.
  unfold textLine. rewrite rev_app_distr. cbn [rev app].
  rewrite !N.eqb_refl. cbn [andb]. by rewrite rev_involutive.
Qed.

Lemma textLine_no_LF s : LF ∉ s -> textLine s = s.
Proof.
  intros Hs. unfold textLine. destruct (rev s) as [|x [|y front]] eqn:Hrev; try done.
  destruct (N.eqb_spec x LF) as [->|]; [|done]. destruct Hs.
  apply list_elem_of_In, List.in_rev, list_elem_of_In. rewrite Hrev. by left.
Qed.

Lemma lineText_inv s :
  lineText s -> asciiText s ∧ (LF ∉ s) ∧ (CR ∉ s).
Proof.
  intros Hs. unfold lineText in Hs. rewrite Forall_forall in Hs. split_and!.
  - apply Forall_forall. intros x Hx. by apply Hs.
  - intros Hx. by destruct (Hs _ Hx) as (_ & ? & _).
  - intros Hx. by destruct (Hs _ Hx) as (_ & _ & ?).
Qed.

Lemma trimmed_asciiText s : asciiText s -> asciiText (trimmed s).
Proof.
  unfold asciiText. rewrite !Forall_forall. intros Hs x Hx. by apply Hs, trimmed_elem.
Qed.

(** What the constructor reads from a file the store has written. *)
Lemma storedLines_join l :
  Forall lineText l ->
  storedLines (join [CR; LF] l)
  = List.filter (fun p => negb (isEmpty p)) (List.map trimmed l).
Proof.
  induction 1 as [|s l Hs Hl IH]; [done|].
  destruct (lineText_inv s Hs) as (Hascii & Hlf & Hcr).
  destruct l as [|t l].
  - cbn [join List.map]. destruct s as [|x s]; [done|].
    unfold storedLines. rewrite readLines_no_LF by done. cbn [List.map].
    by rewrite textLine_no_LF, fromUtf8_ascii by (done || by apply trimmed_asciiText).
  - rewrite join_cons_cons.
    change (List.map trimmed (s :: t :: l)) with ([trimmed s] ++ List.map trimmed (t :: l)).
    rewrite List.filter_app, <- IH. unfold storedLines.
    replace (s ++ [CR; LF] ++ join [CR; LF] (t :: l))
      with ((s ++ [CR]) ++ LF :: join [CR; LF] (t :: l)) by by rewrite <- app_assoc.
    rewrite readLines_app_LF.
    + match goal with
      | |- List.filter ?f (List.map ?g (?x :: ?r)) = _ =>
          change (List.map g (x :: r)) with ([g x] ++ List.map g r)
      end.
      rewrite List.filter_app. f_equal. rewrite <- app_assoc. cbn [app].
      rewrite textLine_CRLF, trimmed_snoc_space by done.
      by rewrite fromUtf8_ascii by by apply trimmed_asciiText.
    + rewrite elem_of_app, list_elem_of_singleton. by intros [?|?].
Qed.

(** X17. The constructor and the store agree on the file: what a Source
    constructed after a successful [addSite] holds as endpoint strings
    are the non-empty trimmed forms of the old entries and of the URL, so
    an added URL without white space at its ends is among the endpoints
    of the next load.  The file is plain ASCII text and the URL a
    one-line ASCII text. *)
Theorem X17_added_endpoint_is_loaded
    (buildJsEngine : list N -> QJSEngine) (nightly : bool) (profile : nat)
    (site : Site) (dir : PluginDir) (raw : list N) (p : Process) :
  sites_txt dir = Some raw ->
  sites_txt_writable dir = true ->
  asciiText raw ->
  lineText (url site) ->
  let s := (Source_new buildJsEngine nightly profile (addSite site dir).2 p).1 in
  (∀ x, x ∈ List.map url (m_sites s) ↔
        x ≠ [] ∧ ∃ entry, (entry ∈ parseSites raw ∨ entry = url site) ∧ x = trimmed entry)
  ∧ (url site ≠ [] -> trimmed (url site) = url site -> url site ∈ List.map url (m_sites s)).
Proof.
  intros Hraw Hw Hascii Hline s.
  assert (Hsites : List.map url (m_sites s)
                   = List.filter (fun p => negb (isEmpty p))
                       (List.map trimmed (sort (removeDuplicates (parseSites raw ++ [url site]))))).
  { unfold s. rewrite Source_new_unfold. cbn zeta. cbn [fst m_sites].
    rewrite (addSite_writes site dir raw) by done. cbn [snd sites_txt].
    rewrite List.map_map. cbn [url]. rewrite List.map_id, readTrimmedLines_storedLines.
    destruct (added_list_on_disk (url site) raw Hascii Hline) as (Hfile & _ & Hlines).
    rewrite toLatin1_ascii.
    - by apply storedLines_join.
    - apply join_asciiText; [repeat constructor; unfold CR, LF; lia|].
      eapply Forall_impl; [exact Hlines|]. apply lineText_asciiText. }
  destruct (added_list_spec (parseSites raw) (url site)) as (_ & _ & Hin).
  assert (Hmem : ∀ x, x ∈ List.map url (m_sites s) ↔
            x ≠ [] ∧ ∃ entry, (entry ∈ parseSites raw ∨ entry = url site) ∧ x = trimmed entry).
  { intros x. rewrite Hsites, elem_of_filter_nonEmpty, list_elem_of_In, List.in_map_iff.
    split.
    - intros [(entry & <- & Hentry%list_elem_of_In%Hin) Hne]. split; [done|]. by exists entry.
    - intros [Hne (entry & Hentry & ->)]. split; [|done].
      exists entry. split; [done|]. by apply list_elem_of_In, Hin. }
  split; [done|]. intros Hne Htrim. apply Hmem. split; [done|].
  exists (url site). split; [by right|done].
Qed.

(** X18. Every construction adds to the log and removes nothing from it:
    the first entry it adds tells whether a script model was found, and
    when the Source has no site the last entry says so. *)
Theorem X18_construction_log
    (buildJsEngine : list N -> QJSEngine) (nightly : bool) (profile : nat)
    (dir : PluginDir) (p : Process) :
  let s := (Source_new buildJsEngine nightly profile dir p).1 in
  let p' := (Source_new buildJsEngine nightly profile dir p).2 in
  (∃ rest,
     logged p'
     = logged p
         ++ match model_js dir with
            | Some _ => (Debug, qstr "Using Javascript model for " ++ m_diskName s)
            | None => (Warning, qstr "Javascript model not found for '" ++ m_diskName s
                                  ++ qstr "' in '" ++ readPath dir (qstr "model.js")
                                  ++ qstr "'")
            end
         :: rest)
  ∧ (m_sites s = [] -> last (logged p') = Some (Debug, qstr "No site for source " ++ m_name s)).
Proof.
  cbn zeta. split.
  - destruct (model_js dir) as [content|] eqn:Hjs.
    + rewrite Source_new_unfold. cbn zeta. cbn [fst snd m_diskName].
      rewrite (readModel_eq _ _ _ content) by done. cbn zeta.
      match goal with
      | |- context [if isEmpty ?l then _ else _] => generalize (isEmpty l)
      end.
      intros noSite.
      destruct (isError _).
      * cbn [fst snd log logged]. destruct noSite; cbn [log snd logged];
          rewrite <- ?app_assoc; by eexists.
      * rewrite readDocument_eq. cbn zeta. cbn [fst snd].
        set (p1 := mkProcess _ _ _ _ _).
        destruct (jsEngineMutex_eq p1) as (_ & _ & _ & Hl & _).
        assert (Hp2 : logged (if isEmpty (ownProperties
                                 (property (evaluate (engineFor buildJsEngine dir p)
                                    (wrappedSource content) (readPath dir (qstr "model.js")))
                                    (qstr "apis")))
                              then p1 else (jsEngineMutex p1).2) = logged p1).
        { by destruct (isEmpty _). }
        destruct (isEmpty (List.map _ _)), noSite; cbn [log snd logged];
          rewrite Hp2; cbn [logged p1]; rewrite <- ?app_assoc; by eexists.
    + destruct (Source_new_missing buildJsEngine nightly profile dir p Hjs)
        as (_ & _ & _ & _ & _ & _ & _ & rest & ->).
      rewrite Source_new_unfold. cbn zeta. cbn [fst m_diskName]. by eexists.
  - rewrite Source_new_unfold. cbn zeta. cbn [fst snd m_sites m_name].
    intros ->. cbn [isEmpty log snd logged]. apply last_snoc.
Qed.

(** X19. A Source without usable document answers no api name: when
    model.js is missing or its evaluation gave an error, [getApi] returns
    null for every name. *)
Theorem X19_getApi_without_document
    (buildJsEngine : list N -> QJSEngine) (nightly : bool) (profile : nat)
    (dir : PluginDir) (p : Process) (getName : Api -> list N) (name : list N) :
  let s := (Source_new buildJsEngine nightly profile dir p).1 in
  model_js dir = None ∨ isError (m_jsSource s) = true ->
  getApi getName s name = None.
Proof.
  intros s Hcase.
  assert (Hapis : m_apis s = []).
  { destruct Hcase as [Hjs|Herr].
    - by destruct (Source_new_missing buildJsEngine nightly profile dir p Hjs)
        as (_ & _ & _ & ? & _).
    - unfold s in *. rewrite Source_new_unfold in *. cbn zeta in *.
      cbn [fst m_apis m_jsSource] in *.
      by destruct (readModel_error buildJsEngine _ dir p Herr) as (_ & ? & _). }
  unfold getApi. by rewrite Hapis.
Qed.

(* ===================================================================== *)
(** ** Further properties: text outside ASCII *)
(* ===================================================================== *)

Lemma ascii_not_continuation x : x < 128 -> isContinuationByte x = false.
Proof.
  intros Hx. unfold isContinuationByte. apply N.eqb_neq.
  pose proof (N.land_le_l x 192). lia.
Qed.

(** A byte of 0x80 or more that ASCII text (or nothing) follows starts
    no well-formed sequence. *)
Lemma fromUtf8_seq_before_ascii b post :
  asciiText post -> fromUtf8_seq b post = None.
Proof.
  intros Hpost. unfold fromUtf8_seq.
  destruct (b <=? 193); [done|].
  assert (Hconts : ∀ k, negb (forallb isContinuationByte (take (S k) post))
                        || (length (take (S k) post) <? S k)%nat = true).
  { intros k. destruct Hpost as [|x post Hx _]; [done|].
    cbn [take forallb]. by rewrite ascii_not_continuation. }
  destruct (b <? 224); [|destruct (b <? 240)]; destruct (245 <=? b); try done.
  - specialize (Hconts 0%nat). cbn [Nat.sub] in *.
    destruct (negb _); [done|]. cbn [orb] in Hconts. by rewrite Hconts.
  - specialize (Hconts 1%nat). cbn [Nat.sub] in *.
    destruct (negb _); [done|]. cbn [orb] in Hconts. by rewrite Hconts.
  - specialize (Hconts 2%nat). cbn [Nat.sub] in *.
    destruct (negb _); [done|]. cbn [orb] in Hconts. by rewrite Hconts.
Qed.

Lemma fromUtf8_loop_one_high fuel pre c post :
  asciiText pre -> asciiText post -> 128 <= c ->
  (length (pre ++ c :: post) <= fuel)%nat ->
  fromUtf8_loop fuel (pre ++ c :: post) = pre ++ ReplacementCharacter :: post.
Proof.
  intros Hpre Hpost Hc. revert fuel.
  induction Hpre as [|x pre Hx _ IH]; intros [|fuel] Hlen; cbn in Hlen; try lia.
  - cbn [app fromUtf8_loop]. destruct (N.ltb_spec c 128); [lia|].
    rewrite fromUtf8_seq_before_ascii by done. f_equal.
    apply fromUtf8_loop_ascii; [done|lia].
  - cbn [app fromUtf8_loop]. destruct (N.ltb_spec x 128); [|lia].
    f_equal. apply IH. lia.
Qed.

Lemma fromUtf8_one_high pre c post :
  asciiText pre -> asciiText post -> 128 <= c ->
  fromUtf8 (pre ++ c :: post) = pre ++ ReplacementCharacter :: post.
Proof.
  intros Hpre Hpost Hc. unfold fromUtf8. case_bool_decide as Hbom.
  - exfalso. unfold utf8bom in Hbom.
    destruct Hpre as [|x pre Hx _]; cbn in Hbom.
    + destruct Hpost as [|y post Hy _]; cbn in Hbom; [done|].
      injection Hbom as _ Hy' _. lia.
    + injection Hbom as Hx' _. lia.
  - by apply fromUtf8_loop_one_high.
Qed.

(** X20. A URL with a Latin-1 letter outside ASCII does not survive the
    file: [addSite] writes it in Latin-1 and the file is read as UTF-8,
    so what is read back has U+FFFD in place of the letter.  Stated for a
    file without entries and a URL with one such letter in one-line ASCII
    text. *)
Theorem X20_latin1_letter_is_not_read_back
    (site : Site) (dir : PluginDir) (raw pre post : list N) (c : N) :
  sites_txt dir = Some raw ->
  sites_txt_writable dir = true ->
  parseSites raw = [] ->
  url site = pre ++ c :: post ->
  lineText pre -> lineText post -> 128 <= c < 256 ->
  sites_txt (addSite site dir).2 = Some (url site)
  ∧ sitesOnDisk (addSite site dir).2 = Some [pre ++ ReplacementCharacter :: post]
  ∧ url site ∉ [pre ++ ReplacementCharacter :: post].
Proof.
  intros Hraw Hw Hempty Hurl Hpre Hpost Hc.
  destruct (lineText_inv pre Hpre) as (Hapre & Hlfpre & Hcrpre).
  destruct (lineText_inv post Hpost) as (Hapost & Hlfpost & Hcrpost).
  assert (Hwritten : sites_txt (addSite site dir).2 = Some (url site)).
  { rewrite (addSite_writes site dir raw) by done. cbn [snd sites_txt].
    rewrite Hempty. cbn [app]. unfold removeDuplicates. cbn [removeDuplicates_from].
    rewrite bool_decide_eq_false_2 by apply not_elem_of_nil.
    rewrite sort_singleton. cbn [join]. f_equal.
    rewrite Hurl. unfold toLatin1. rewrite List.map_app. cbn [List.map].
    fold (toLatin1 pre). fold (toLatin1 post).
    rewrite !toLatin1_ascii by done.
    destruct (N.ltb_spec c 256); [done|lia]. }
  split; [done|]. split.
  - unfold sitesOnDisk. rewrite Hwritten. cbn [fmap option_fmap option_map]. f_equal.
    unfold parseSites. rewrite Hurl, fromUtf8_one_high by (done || lia).
    assert (Hr : ReplacementCharacter ≠ CR ∧ ReplacementCharacter ≠ LF) by done.
    rewrite removeChar_absent.
    + unfold split. rewrite splitKeep_absent; [by destruct pre|].
      rewrite elem_of_app, elem_of_cons. naive_solver.
    + rewrite elem_of_app, elem_of_cons. naive_solver.
  - rewrite list_elem_of_singleton, Hurl. intros Heq.
    apply app_inv_head in Heq. injection Heq as Heq. unfold ReplacementCharacter in Heq. lia.
Qed.

(* ===================================================================== *)
(** ** Further properties: lookup of apis, line endings *)
(* ===================================================================== *)

Lemma getApi_loop_found getName apis name found :
  getApi_loop getName apis name = Some found ->
  found ∈ apis ∧ getName found = name.
Proof.
  induction apis as [|a apis IH]; [done|]. cbn [getApi_loop].
  case_bool_decide as Ha.
  - intros [= <-]. split; [by left|done].
  - intros [Hin Hname]%IH. split; [by right|done].
Qed.

(** X21. Every Api of a Source is found under its own name: [getApi]
    returns an Api of the Source with that name, and the very same Api
    when no two Apis of the Source share a name. *)
Theorem X21_every_api_is_found (getName : Api -> list N) (this : Source) (api : Api) :
  api ∈ m_apis this ->
  ∃ found,
    getApi getName this (getName api) = Some found
    ∧ found ∈ m_apis this
    ∧ getName found = getName api
    ∧ (NoDup (List.map getName (m_apis this)) -> found = api).
Proof.
  unfold getApi. generalize (m_apis this) as apis.
  induction apis as [|a apis IH]; [by intros ?%elem_of_nil|].
  intros Hin. cbn [getApi_loop List.map]. case_bool_decide as Ha.
  - exists a. split_and!; [done|by left|done|].
    intros [Hfresh _]%NoDup_cons.
    apply elem_of_cons in Hin as [->|Hin]; [done|].
    destruct Hfresh. rewrite Ha. apply list_elem_of_In, List.in_map, list_elem_of_In, Hin.
  - apply elem_of_cons in Hin as [->|Hin]; [done|].
    destruct (IH Hin) as (found & Hfound & Hmem & Hname & Hsame).
    exists found. split_and!; [done|by right|done|].
    intros [_ Hnodup]%NoDup_cons. by apply Hsame.
Qed.

Lemma textLine_LF s : CR ∉ s -> textLine (s ++ [LF]) = s ++ [LF].
Proof.
  intros Hs. unfold textLine. rewrite rev_app_distr. cbn [rev app].
  destruct (rev s) as [|y front] eqn:Hrev; [done|].
  rewrite N.eqb_refl. destruct (N.eqb_spec y CR) as [->|]; [|done].
  destruct Hs. apply list_elem_of_In, List.in_rev, list_elem_of_In. rewrite Hrev. by left.
Qed.

Lemma storedLines_join_LF l :
  Forall lineText l ->
  storedLines (join [LF] l)
  = List.filter (fun p => negb (isEmpty p)) (List.map trimmed l).
Proof.
  induction 1 as [|s l Hs Hl IH]; [done|].
  destruct (lineText_inv s Hs) as (Hascii & Hlf & Hcr).
  destruct l as [|t l].
  - cbn [join List.map]. destruct s as [|x s]; [done|].
    unfold storedLines. rewrite readLines_no_LF by done. cbn [List.map].
    by rewrite textLine_no_LF, fromUtf8_ascii by (done || by apply trimmed_asciiText).
  - rewrite join_cons_cons.
    change (List.map trimmed (s :: t :: l)) with ([trimmed s] ++ List.map trimmed (t :: l)).
    rewrite List.filter_app, <- IH. unfold storedLines. cbn [app].
    rewrite readLines_app_LF by done.
    match goal with
    | |- List.filter ?f (List.map ?g (?x :: ?r)) = _ =>
        change (List.map g (x :: r)) with ([g x] ++ List.map g r)
    end.
    rewrite List.filter_app. f_equal.
    rewrite textLine_LF, trimmed_snoc_space by done.
    by rewrite fromUtf8_ascii by by apply trimmed_asciiText.
Qed.

Lemma parseSites_join_LF l :
  Forall lineText l ->
  parseSites (join [LF] l) = List.filter (fun p => negb (isEmpty p)) l.
Proof.
  intros Hl.
  assert (Hparts : Forall (fun s => asciiText s ∧ (LF ∉ s) ∧ (CR ∉ s)) l).
  { eapply Forall_impl; [exact Hl|]. apply lineText_inv. }
  assert (Hascii : asciiText (join [LF] l)).
  { apply join_asciiText; [repeat constructor; unfold LF; lia|].
    eapply Forall_impl; [exact Hparts|]. by intros ? [? _]. }
  unfold parseSites. rewrite fromUtf8_ascii by done.
  rewrite removeChar_absent.
  - apply split_join. eapply Forall_impl; [exact Hparts|]. by intros ? (_ & ? & _).
  - clear Hascii. induction Hparts as [|s l' (_ & _ & Hcr) _ IH]; [apply not_elem_of_nil|].
    destruct l' as [|t l']; [done|]. rewrite join_cons_cons.
    rewrite !elem_of_app, list_elem_of_singleton.
    inversion Hl; subst. intros [?|[?|?]]; [done|done|by apply IH].
Qed.

(** X22. The line ending of sites.txt does not matter: for one-line ASCII
    entries, the constructor reads the same endpoint strings from the
    file with LF and from the file with CR LF between the entries (the
    trimmed entries that are not empty), and so do [addSite] and
    [removeSite] (the entries that are not empty). *)
Theorem X22_line_endings_do_not_matter
    (buildJsEngine : list N -> QJSEngine) (nightly : bool) (profile : nat)
    (unix windows : PluginDir) (entries : list (list N)) (p : Process) :
  Forall lineText entries ->
  sites_txt unix = Some (join [LF] entries) ->
  sites_txt windows = Some (join [CR; LF] entries) ->
  List.map url (m_sites (Source_new buildJsEngine nightly profile unix p).1)
  = List.map url (m_sites (Source_new buildJsEngine nightly profile windows p).1)
  ∧ sitesOnDisk unix = sitesOnDisk windows
  ∧ sitesOnDisk unix = Some (List.filter (fun e => negb (isEmpty e)) entries).
Proof.
  intros Hentries Hunix Hwindows.
  rewrite !Source_new_unfold. cbn zeta. cbn [fst m_sites].
  rewrite Hunix, Hwindows, !List.map_map. cbn [url]. rewrite !List.map_id.
  rewrite !readTrimmedLines_storedLines, storedLines_join, storedLines_join_LF by done.
  split; [done|]. unfold sitesOnDisk. rewrite Hunix, Hwindows.
  cbn [fmap option_fmap option_map].
  rewrite parseSites_join_LF by done.
  pose proof (parseSites_written entries Hentries) as Hw.
  rewrite toLatin1_ascii in Hw; [by rewrite Hw|].
  apply join_asciiText; [repeat constructor; unfold CR, LF; lia|].
  eapply Forall_impl; [exact Hentries|]. apply lineText_asciiText.
Qed.

(* ===================================================================== *)
(** ** The further properties at concrete inputs *)
(* ===================================================================== *)

(** X2 at two Sources constructed one after the other. *)
Lemma X2_witness :
  let first := Source_new (fun _ => exampleEngine) false 0 exampleDir freshProcess in
  let second := Source_new (fun _ => exampleEngine) false 1 exampleDir first.2 in
  is_Some (head (m_apis first.1))
  ∧ api_engineMutex <$> head (m_apis first.1) = api_engineMutex <$> head (m_apis second.1).
Proof.
  cbn zeta.
  pose proof (X2_sources_share_engine_and_mutex (fun _ => exampleEngine) false 0 1
                exampleDir exampleDir freshProcess) as H.
  cbn zeta in H.
  destruct (m_apis (Source_new (fun _ => exampleEngine) false 0 exampleDir freshProcess).1)
    as [|api1 apis1] eqn:H1; [by vm_compute in H1|].
  destruct (m_apis (Source_new (fun _ => exampleEngine) false 1 exampleDir
                      (Source_new (fun _ => exampleEngine) false 0 exampleDir freshProcess).2).1)
    as [|api2 apis2] eqn:H2; [by vm_compute in H2|].
  split; [by eexists|]. cbn. f_equal.
  apply (H api1 api2); by left.
Defined.

(** X3 at a directory without model.js. *)
Lemma X3_witness :
  let s := (Source_new (fun _ => exampleEngine) false 0 emptyDir freshProcess).1 in
  let p' := (Source_new (fun _ => exampleEngine) false 0 emptyDir freshProcess).2 in
  model_js emptyDir = None
  ∧ m_name s = [] ∧ m_apis s = [] ∧ engineStatic p' = None ∧ trace p' = [].
Proof.
  cbn zeta.
  destruct (X3_missing_model_gives_empty_source_and_no_engine
              (fun _ => exampleEngine) false 0 emptyDir freshProcess eq_refl)
    as (Hname & _ & Hapis & _ & _ & Hengine & _ & Htrace & _).
  split; [reflexivity|]. split; [exact Hname|]. split; [exact Hapis|].
  split; [exact Hengine|exact Htrace].
Defined.

(** X4 at a document without apis. *)
Lemma X4_witness :
  let engine := mkEngine (fun _ _ => JSObject [(qstr "name", JSString (qstr "Bare"))]) in
  let s := (Source_new (fun _ => engine) false 0 exampleDir freshProcess).1 in
  let p' := (Source_new (fun _ => engine) false 0 exampleDir freshProcess).2 in
  m_name s = qstr "Bare" ∧ m_apis s = [] ∧ mutexStatic p' = None.
Proof.
  cbn zeta.
  destruct (X4_document_without_apis
              (fun _ => mkEngine (fun _ _ => JSObject [(qstr "name", JSString (qstr "Bare"))]))
              false 0 exampleDir (qstr "export var source = {};") freshProcess
              eq_refl eq_refl eq_refl)
    as (Hname & Hapis & Hmutex & _).
  split; [rewrite Hname; vm_compute; reflexivity|]. split; [exact Hapis|exact Hmutex].
Defined.

(** X5 at the example document. *)
Lemma X5_witness :
  let s := (Source_new (fun _ => exampleEngine) false 0 exampleDir freshProcess).1 in
  List.map api_key (m_apis s) = [qstr "json"; qstr "html"].
Proof.
  cbn zeta.
  destruct (X5_one_api_per_key_in_order (fun _ => exampleEngine) false 0 exampleDir
              (qstr "export var source = {};") freshProcess eq_refl eq_refl)
    as (Hkeys & _).
  rewrite Hkeys. vm_compute. reflexivity.
Defined.

(** X6 at the example document. *)
Lemma X6_witness :
  let s := (Source_new (fun _ => exampleEngine) false 0 exampleDir freshProcess).1 in
  caseFormat (m_tagNameFormat s) = UpperFirst
  ∧ wordSeparator (m_tagNameFormat s) = qstr "_".
Proof.
  cbn zeta.
  destruct (X6_tag_format (fun _ => exampleEngine) false 0 exampleDir
              (qstr "export var source = {};") freshProcess eq_refl eq_refl)
    as (_ & Hformat).
  destruct (Hformat eq_refl) as (Hseparator & _ & Hcase & _).
  split; [apply Hcase; vm_compute; reflexivity|].
  rewrite Hseparator. vm_compute. reflexivity.
Defined.

(** X7 at the schemes of the example document. *)
Lemma X7_witness :
  let auths := property exampleDocument (qstr "auth") in
  is_Some (readAuths auths ∅ !! qstr "session")
  ∧ readAuths auths ∅ !! qstr "token" = None.
Proof.
  cbn zeta.
  destruct (X7_every_scheme_is_stored (property exampleDocument (qstr "auth")) (qstr "session"))
    as (Hsession & _).
  destruct (X7_every_scheme_is_stored (property exampleDocument (qstr "auth")) (qstr "token"))
    as (Htoken & _).
  split.
  - apply Hsession. apply (bool_decide_unpack _). vm_compute. exact I.
  - apply eq_None_not_Some. intros Hsome. apply Htoken in Hsome.
    apply (bool_decide_eq_true_2 _) in Hsome. vm_compute in Hsome. discriminate Hsome.
Defined.

(** X8 at the scheme "url" of the example document. *)
Lemma X8_witness :
  let auth := property (property exampleDocument (qstr "auth")) (qstr "url") in
  buildAuth auth = Some (UrlAuth (qstr "url") [] 50)
  ∧ inIntRange 50.
Proof.
  cbn zeta.
  assert (Hbuild : buildAuth (property (property exampleDocument (qstr "auth")) (qstr "url"))
                   = Some (UrlAuth (qstr "url") [] 50)) by (vm_compute; reflexivity).
  split; [exact Hbuild|].
  by destruct (X8_page_cap _ _ 50%Z Hbuild eq_refl) as (Hrange & _).
Defined.

(** X9 at the scheme "session" of the example document, whose check is
    of type "cookie". *)
Lemma X9_witness :
  let auth := property (property exampleDocument (qstr "auth")) (qstr "session") in
  toString (property auth (qstr "type")) = qstr "post"
  ∧ ∃ fields cookie redirectUrl csrfUrl csrfFields,
      buildAuth auth
      = Some (HttpAuth (qstr "post") (qstr "/session") fields cookie redirectUrl
                csrfUrl csrfFields)
      ∧ cookie = qstr "user_id" ∧ redirectUrl = [] ∧ csrfUrl = [] ∧ csrfFields = [].
Proof.
  cbn zeta. split; [vm_compute; reflexivity|].
  destruct (X9_http_auth (property (property exampleDocument (qstr "auth")) (qstr "session"))
              (or_intror eq_refl))
    as (cookie & redirectUrl & csrfUrl & csrfFields & Hbuild & _ & Hcookie & _ & _ & _
        & Hredirect & _ & Hcsrf).
  exists (buildFields (property (property (property exampleDocument (qstr "auth"))
                                   (qstr "session")) (qstr "fields"))),
    cookie, redirectUrl, csrfUrl, csrfFields.
  specialize (Hcookie eq_refl eq_refl).
  destruct (Hcsrf eq_refl) as [Hurl Hfields].
  split; [exact Hbuild|]. split; [rewrite Hcookie; vm_compute; reflexivity|].
  split; [|by split].
  apply Hredirect. intros Habs. vm_compute in Habs. discriminate Habs.
Defined.


(** X11 at a scheme that is a number. *)
Lemma X11_witness :
  isObject (JSNumber 5) = false
  ∧ buildAuth (JSNumber 5) = Some (UrlAuth (qstr "undefined") [] 0).
Proof.
  split; [reflexivity|].
  by destruct (X11_malformed_descriptions_degrade (JSNumber 5) eq_refl) as (_ & _ & ?).
Defined.

(** X12 at a directory whose sites.txt cannot be written. *)
Lemma X12_witness :
  let dir := mkPluginDir (qstr "sites/Example") None (Some (qstr "a.example")) None false in
  let site := mkSite (qstr "b.example") in
  (addSite site dir).1 = false ∧ (addSite site dir).2 = dir.
Proof.
  cbn zeta.
  match goal with
  | |- context [addSite ?s ?d] =>
      destruct (X12_store_success_and_failure s d) as (_ & _ & Hfail & _)
  end.
  assert (Hfalse : (addSite (mkSite (qstr "b.example"))
                      (mkPluginDir (qstr "sites/Example") None (Some (qstr "a.example"))
                         None false)).1 = false) by (vm_compute; reflexivity).
  split; [exact Hfalse|]. exact (Hfail Hfalse).
Defined.

(** X13 at a sites.txt with blank lines only. *)
Lemma X13_witness :
  let raw := [CR; LF; LF] in
  let dir := mkPluginDir (qstr "sites/Example") None (Some raw) None true in
  let site := mkSite (qstr "b.example") in
  parseSites raw = []
  ∧ sites_txt (addSite site dir).2 = Some (qstr "b.example").
Proof.
  cbn zeta.
  match goal with
  | |- context [addSite ?s ?d] =>
      destruct (X13_single_entry_files s d [CR; LF; LF] eq_refl eq_refl) as (Hadd & _)
  end.
  assert (Hempty : parseSites [CR; LF; LF] = []) by (vm_compute; reflexivity).
  split; [exact Hempty|]. rewrite (Hadd Hempty). vm_compute. reflexivity.
Defined.

(** X14 at two URLs added to the example directory. *)
Lemma X14_witness :
  let site1 := mkSite (qstr "b.example") in
  let site2 := mkSite (qstr "d.example") in
  (asciiText (qstr "c.example" ++ [LF] ++ qstr "a.example" ++ [CR; LF])
   ∧ lineText (url site1) ∧ url site1 ≠ [] ∧ lineText (url site2) ∧ url site2 ≠ [])
  ∧ addSite site2 (addSite site1 exampleDir).2 = addSite site1 (addSite site2 exampleDir).2.
Proof.
  cbn zeta.
  assert (Hascii : asciiText (qstr "c.example" ++ [LF] ++ qstr "a.example" ++ [CR; LF]))
    by by_compute.
  assert (H1 : lineText (qstr "b.example")) by by_compute.
  assert (H2 : lineText (qstr "d.example")) by by_compute.
  split; [by split_and!|].
  by apply (X14_additions_commute (mkSite (qstr "b.example")) (mkSite (qstr "d.example"))
              exampleDir _ eq_refl eq_refl Hascii H1 ltac:(done) H2 ltac:(done)).
Defined.

(** X15 at a file with a repeated entry: both copies stay, in the order
    of the file. *)
Lemma X15_witness :
  let raw := qstr "c.example" ++ [LF] ++ qstr "b.example" ++ [LF] ++ qstr "a.example"
             ++ [CR; LF] ++ qstr "c.example" in
  let dir := mkPluginDir (qstr "sites/Example") None (Some raw) None true in
  let site := mkSite (qstr "b.example") in
  asciiText raw
  ∧ removeSite site (removeSite site dir).2 = removeSite site dir
  ∧ sites_txt (removeSite site dir).2
    = Some (toLatin1 (join [CR; LF] [qstr "c.example"; qstr "a.example"; qstr "c.example"])).
Proof.
  cbn zeta.
  match goal with
  | |- asciiText ?r ∧ _ => assert (Hascii : asciiText r) by by_compute
  end.
  match goal with
  | |- context [removeSite ?s (mkPluginDir ?a ?b ?c ?d ?e)] =>
      destruct (X15_removal_keeps_order_and_is_idempotent s (mkPluginDir a b c d e) _
                  eq_refl eq_refl)
        as ((kept & Hfile & Hkept & _) & Htwice)
  end.
  split; [exact Hascii|]. split; [exact (Htwice Hascii)|].
  rewrite Hfile, Hkept. vm_compute. reflexivity.
Defined.

(** X16 at the example directory: the file comes back sorted. *)
Lemma X16_witness :
  let site := mkSite (qstr "b.example") in
  (asciiText (qstr "c.example" ++ [LF] ++ qstr "a.example" ++ [CR; LF])
   ∧ lineText (url site) ∧ url site ≠ []
   ∧ (url site ∉ parseSites (qstr "c.example" ++ [LF] ++ qstr "a.example" ++ [CR; LF])))
  ∧ sitesOnDisk (removeSite site (addSite site exampleDir).2).2
    = Some [qstr "a.example"; qstr "c.example"].
Proof.
  cbn zeta.
  assert (Hascii : asciiText (qstr "c.example" ++ [LF] ++ qstr "a.example" ++ [CR; LF]))
    by by_compute.
  assert (Hline : lineText (qstr "b.example")) by by_compute.
  assert (Hfresh : qstr "b.example"
                   ∉ parseSites (qstr "c.example" ++ [LF] ++ qstr "a.example" ++ [CR; LF]))
    by by_compute.
  split; [by split_and!|].
  rewrite (X16_add_then_remove_normalizes (mkSite (qstr "b.example")) exampleDir _
             eq_refl eq_refl Hascii Hline ltac:(done) Hfresh).
  vm_compute. reflexivity.
Defined.

(** X17 at the example directory. *)
Lemma X17_witness :
  let site := mkSite (qstr "b.example") in
  let s := (Source_new (fun _ => exampleEngine) false 0 (addSite site exampleDir).2
              freshProcess).1 in
  (asciiText (qstr "c.example" ++ [LF] ++ qstr "a.example" ++ [CR; LF])
   ∧ lineText (url site) ∧ url site ≠ [] ∧ trimmed (url site) = url site)
  ∧ url site ∈ List.map url (m_sites s).
Proof.
  cbn zeta.
  assert (Hascii : asciiText (qstr "c.example" ++ [LF] ++ qstr "a.example" ++ [CR; LF]))
    by by_compute.
  assert (Hline : lineText (qstr "b.example")) by by_compute.
  assert (Htrim : trimmed (qstr "b.example") = qstr "b.example") by (vm_compute; reflexivity).
  split; [by split_and!|].
  destruct (X17_added_endpoint_is_loaded (fun _ => exampleEngine) false 0
              (mkSite (qstr "b.example")) exampleDir _ freshProcess
              eq_refl eq_refl Hascii Hline) as (_ & Hloaded).
  by apply Hloaded.
Defined.

(** X18 at a directory without model.js and without sites. *)
Lemma X18_witness :
  let s := (Source_new (fun _ => exampleEngine) false 0 emptyDir freshProcess).1 in
  let p' := (Source_new (fun _ => exampleEngine) false 0 emptyDir freshProcess).2 in
  m_sites s = []
  ∧ last (logged p') = Some (Debug, qstr "No site for source ").
Proof.
  cbn zeta.
  destruct (X18_construction_log (fun _ => exampleEngine) false 0 emptyDir freshProcess)
    as (_ & Hlast).
  cbn zeta in Hlast.
  assert (Hsites : m_sites (Source_new (fun _ => exampleEngine) false 0 emptyDir
                              freshProcess).1 = []) by (vm_compute; reflexivity).
  split; [exact Hsites|]. rewrite (Hlast Hsites). vm_compute. reflexivity.
Defined.

(** X19 at a directory without model.js. *)
Lemma X19_witness :
  let s := (Source_new (fun _ => exampleEngine) false 0 emptyDir freshProcess).1 in
  model_js emptyDir = None ∧ getApi api_key s (qstr "json") = None.
Proof.
  cbn zeta. split; [reflexivity|].
  by apply (X19_getApi_without_document (fun _ => exampleEngine) false 0 emptyDir
              freshProcess api_key (qstr "json") (or_introl eq_refl)).
Defined.

(** X20 at a host name with the letter U+00E9. *)
Lemma X20_witness :
  let dir := mkPluginDir (qstr "sites/Example") None (Some []) None true in
  let site := mkSite (qstr "caf" ++ [233] ++ qstr ".example") in
  (lineText (qstr "caf") ∧ lineText (qstr ".example") ∧ 128 <= 233 < 256)
  ∧ sitesOnDisk (addSite site dir).2 = Some [qstr "caf" ++ [65533] ++ qstr ".example"].
Proof.
  cbn zeta.
  assert (Hpre : lineText (qstr "caf")) by by_compute.
  assert (Hpost : lineText (qstr ".example")) by by_compute.
  assert (Hc : 128 <= 233 < 256) by lia.
  split; [by split_and!|].
  by destruct (X20_latin1_letter_is_not_read_back
                 (mkSite (qstr "caf" ++ [233] ++ qstr ".example"))
                 (mkPluginDir (qstr "sites/Example") None (Some []) None true)
                 [] (qstr "caf") (qstr ".example") 233
                 eq_refl eq_refl eq_refl eq_refl Hpre Hpost Hc) as (_ & Hdisk & _).
Defined.

(** X21 at the Apis of the example document, by their keys. *)
Lemma X21_witness :
  let s := (Source_new (fun _ => exampleEngine) false 0 exampleDir freshProcess).1 in
  api_key <$> getApi api_key s (qstr "html") = Some (qstr "html").
Proof.
  cbn zeta.
  set (s := (Source_new (fun _ => exampleEngine) false 0 exampleDir freshProcess).1).
  destruct (m_apis s) as [|api1 [|api2 rest]] eqn:Hapis;
    [by vm_compute in Hapis|by vm_compute in Hapis|].
  assert (Hkey : api_key api2 = qstr "html").
  { vm_compute in Hapis. by injection Hapis as _ <- _. }
  assert (Hin : api2 ∈ m_apis s) by (rewrite Hapis; right; by left).
  destruct (X21_every_api_is_found api_key s api2 Hin) as (found & Hfound & _ & Hname & _).
  rewrite <- Hkey, Hfound. cbn. by rewrite Hname.
Defined.

(** X22 at two entries. *)
Lemma X22_witness :
  let entries := [qstr "a.example"; qstr " b.example"] in
  let unix := mkPluginDir (qstr "sites/U") None (Some (join [LF] entries)) None true in
  let windows := mkPluginDir (qstr "sites/W") None (Some (join [CR; LF] entries)) None true in
  Forall lineText entries
  ∧ List.map url (m_sites (Source_new (fun _ => exampleEngine) false 0 unix freshProcess).1)
    = List.map url (m_sites (Source_new (fun _ => exampleEngine) false 0 windows freshProcess).1)
  ∧ sitesOnDisk unix = sitesOnDisk windows.
Proof.
  cbn zeta.
  assert (Hentries : Forall lineText [qstr "a.example"; qstr " b.example"]).
  { repeat constructor; by_compute. }
  split; [exact Hentries|].
  match goal with
  | |- context [sitesOnDisk ?u = sitesOnDisk ?w] =>
      destruct (X22_line_endings_do_not_matter (fun _ => exampleEngine) false 0 u w _
                  freshProcess Hentries eq_refl eq_refl) as (Hsites & Hdisk & _)
  end.
  by split.
Defined.
